(** * PIPELINES_RAG: document chunking, upload validation, query validation
      and vector-store orchestration

    A shallow embedding of the Python sources

      - [services/document_processor.py]  ([_chunk_text], [validate_file])
      - [services/rag_pipeline.py]        ([process_query], [validate_query])
      - [services/gemini_client.py]       ([generate_response], [validate_text])
      - [database/chroma_client.py]       ([search_similar], [delete_document_chunks])
      - [config.py]                       ([CHUNK_SIZE], [CHUNK_OVERLAP])

    Python [int] is [Z]; a Python [str] is the list of its Unicode code
    points; a Python exception is a value of [exn] carried by [result]. *)

From Stdlib Require Import String Ascii DecimalString DecimalZ DecimalPos.
From Stdlib Require Import ZArith NArith QArith List Bool Lia Sorted Permutation.
Import ListNotations.
Open Scope Z_scope.

(* ------------------------------------------------------------------ *)
(** ** Python values: exceptions, strings, slices, ranges *)

Module Py.

(** A [str] is a sequence of code points. *)
Definition char := N.
Definition str := list char.

(** Literals of the source are written as Rocq strings. *)
Definition lit (s : string) : str :=
  map N_of_ascii (list_ascii_of_string s).

Definition str_eqb (a b : str) : bool :=
  if list_eq_dec N.eq_dec a b then true else false.

(** [len(s)] *)
Definition len {A} (l : list A) : Z := Z.of_nat (length l).

(** The exceptions that the modelled code can meet.  [ServiceError]
    stands for whatever an external client library raises. *)
Inductive exn :=
| ValueError (msg : str)
| ZeroDivisionError (msg : str)
| IndexError (msg : str)
| ServiceError (msg : str).

(** [str(e)] *)
Definition exn_str (e : exn) : str :=
  match e with
  | ValueError m | ZeroDivisionError m | IndexError m | ServiceError m => m
  end.

Inductive result (A : Type) :=
| Ok (a : A)
| Raise (e : exn).
Arguments Ok {A} a.
Arguments Raise {A} e.

Definition bind {A B} (m : result A) (k : A -> result B) : result B :=
  match m with
  | Ok a => k a
  | Raise e => Raise e
  end.

(** The code points for which [str.isspace] holds; [str.split()] and
    [str.strip()] without arguments use exactly this set. *)
Definition is_space (c : char) : bool :=
  ((9 <=? c) && (c <=? 13) || (28 <=? c) && (c <=? 32)
   || (c =? 133) || (c =? 160) || (c =? 5760)
   || (8192 <=? c) && (c <=? 8202)
   || (c =? 8232) || (c =? 8233) || (c =? 8239) || (c =? 8287)
   || (c =? 12288))%N.

(** [s.lstrip()], [s.rstrip()], [s.strip()] *)
Fixpoint lstrip (s : str) : str :=
  match s with
  | [] => []
  | c :: s' => if is_space c then lstrip s' else s
  end.

Definition rstrip (s : str) : str := rev (lstrip (rev s)).

Definition strip (s : str) : str := rstrip (lstrip s).

(** [s.split()]: maximal runs of non-space characters, in order.  [cur]
    is the run being read. *)
Fixpoint split_from (cur : str) (s : str) : list str :=
  match s with
  | [] => match cur with [] => [] | _ => [cur] end
  | c :: s' =>
      if is_space c
      then match cur with
           | [] => split_from [] s'
           | _ => cur :: split_from [] s'
           end
      else split_from (cur ++ [c]) s'
  end.

Definition split (s : str) : list str := split_from [] s.

(** [sep.join(ws)] *)
Fixpoint join (sep : str) (ws : list str) : str :=
  match ws with
  | [] => []
  | [w] => w
  | w :: ws' => w ++ sep ++ join sep ws'
  end.

(** A slice bound [i] on a sequence of length [n]: negative bounds count
    from the end, and every bound is clamped into [0..n]. *)
Definition clamp_index (n i : Z) : Z :=
  if i <? 0 then Z.max (i + n) 0 else Z.min i n.

(** [l[a:b]] *)
Definition slice {A} (l : list A) (a b : Z) : list A :=
  let n := len l in
  let lo := clamp_index n a in
  let hi := clamp_index n b in
  firstn (Z.to_nat (hi - lo)) (skipn (Z.to_nat lo) l).

(** The number of elements of [range(start, stop, step)], [step <> 0]. *)
Definition range_len (start stop step : Z) : Z :=
  if 0 <? step
  then if start <? stop then (stop - start - 1) / step + 1 else 0
  else if stop <? start then (start - stop - 1) / (- step) + 1 else 0.

Definition range_list (start stop step : Z) : list Z :=
  map (fun k => start + Z.of_nat k * step)
      (seq 0 (Z.to_nat (range_len start stop step))).

(** [range(start, stop, step)]; a zero step is a [ValueError]. *)
Definition range (start stop step : Z) : result (list Z) :=
  if step =? 0
  then Raise (ValueError (lit "range() arg 3 must not be zero"))
  else Ok (range_list start stop step).

(** [a // b]: floor division; Rocq's [Z.div] rounds the same way. *)
Definition floordiv (a b : Z) : result Z :=
  if b =? 0
  then Raise (ZeroDivisionError (lit "integer division or modulo by zero"))
  else Ok (a / b).

(** [str(z)] for an [int] *)
Definition str_of_int (z : Z) : str :=
  lit (NilZero.string_of_int (Z.to_int z)).

End Py.

Import Py.

Notation "x <- m ;; k" := (bind m (fun x => k))
  (at level 61, m at next level, right associativity).

(* ------------------------------------------------------------------ *)
(** ** config.py *)

Record Config := {
  CHUNK_SIZE : Z;
  CHUNK_OVERLAP : Z
}.

(** The values [config.py] falls back to when the environment sets none. *)
Definition default_config : Config :=
  {| CHUNK_SIZE := 1000; CHUNK_OVERLAP := 200 |}.

(* ------------------------------------------------------------------ *)
(** ** services/document_processor.py: [_chunk_text] *)

(** The dictionary [chunk_data]. *)
Record Chunk := {
  chunk_id : str;
  document_id : str;
  filename : str;
  text : str;
  chunk_index : Z;
  word_count : Z;
  start_word_index : Z;
  end_word_index : Z
}.

Section Chunking.

Variable cfg : Config.
Variable words : list str.
Variable doc_id : str.
Variable fname : str.

(** [chunk_words = words[i:i + chunk_size]] *)
Definition chunk_words (i : Z) : list str :=
  slice words i (i + CHUNK_SIZE cfg).

(** [chunk_text = " ".join(chunk_words)] *)
Definition chunk_text (i : Z) : str :=
  join (lit " ") (chunk_words i).

(** The body of the [for] loop at index [i], with the list [chunks]
    built so far: [continue] on a short window, [append] otherwise. *)
Definition chunk_step (chunks : list Chunk) (i : Z) : result (list Chunk) :=
  if len (strip (chunk_text i)) <? 50
  then Ok chunks
  else
    idx <- floordiv i (CHUNK_SIZE cfg) ;;
    let chunk_data :=
      {| chunk_id := doc_id ++ lit "_chunk_" ++ str_of_int idx;
         document_id := doc_id;
         filename := fname;
         text := chunk_text i;
         chunk_index := idx;
         word_count := len (chunk_words i);
         start_word_index := i;
         end_word_index := Z.min (i + CHUNK_SIZE cfg) (len words) |} in
    Ok (chunks ++ [chunk_data]).

Fixpoint chunk_loop (chunks : list Chunk) (starts : list Z)
  : result (list Chunk) :=
  match starts with
  | [] => Ok chunks
  | i :: rest =>
      chunks' <- chunk_step chunks i ;;
      chunk_loop chunks' rest
  end.

End Chunking.

(** [_chunk_text(text, document_id, filename)]; the [except] clause logs
    and re-raises, so an exception leaves the function unchanged. *)
Definition _chunk_text (cfg : Config) (text document_id filename : str)
  : result (list Chunk) :=
  let chunks := [] in
  let words := split text in
  let chunk_size := CHUNK_SIZE cfg in
  let overlap := CHUNK_OVERLAP cfg in
  starts <- range 0 (len words) (chunk_size - overlap) ;;
  chunk_loop cfg words document_id filename chunks starts.

(** The word span [[start_word_index, end_word_index)] of a chunk. *)
Definition span (c : Chunk) : Z * Z := (start_word_index c, end_word_index c).

(** A text of [n] copies of the word [w], separated by single spaces. *)
Definition repeat_word (w : str) (n : nat) : str :=
  join (lit " ") (repeat w n).

(** The window at [i] survives the length test of the loop body. *)
Definition keeps (cfg : Config) (words : list str) (i : Z) : bool :=
  negb (len (strip (chunk_text cfg words i)) <? 50).

(** The [chunk_data] appended for a surviving window at [i], when
    [CHUNK_SIZE] is not zero. *)
Definition chunk_at (cfg : Config) (words : list str) (doc_id fname : str)
  (i : Z) : Chunk :=
  {| chunk_id := doc_id ++ lit "_chunk_" ++ str_of_int (i / CHUNK_SIZE cfg);
     document_id := doc_id;
     filename := fname;
     text := chunk_text cfg words i;
     chunk_index := i / CHUNK_SIZE cfg;
     word_count := len (chunk_words cfg words i);
     start_word_index := i;
     end_word_index := Z.min (i + CHUNK_SIZE cfg) (len words) |}.

(** Number of words two spans have in common. *)
Definition span_overlap (a b : Chunk) : Z :=
  Z.max 0 (Z.min (end_word_index a) (end_word_index b)
           - Z.max (start_word_index a) (start_word_index b)).

(** A word as [split] produces it: not empty, no white space inside. *)
Definition is_word (w : str) : Prop :=
  w <> [] /\ Forall (fun c => is_space c = false) w.

(* ------------------------------------------------------------------ *)
(** ** services/document_processor.py: [validate_file] *)

(** [p.rfind(c)] for a single character: the last position of [c], or -1. *)
Fixpoint rfind_from (c : char) (p : str) (pos last : Z) : Z :=
  match p with
  | [] => last
  | x :: p' => rfind_from c p' (pos + 1) (if (x =? c)%N then pos else last)
  end.

Definition rfind (c : char) (p : str) : Z := rfind_from c p 0 (-1).

(** [os.path.splitext] of the Python standard library, POSIX flavour
    ([sep = "/"], no [altsep], [extsep = "."]): the extension starts at the
    last dot of the last path component, unless that component has nothing
    but dots before it. *)
Definition splitext (p : str) : str * str :=
  let sepIndex := rfind 47%N p in
  let dotIndex := rfind 46%N p in
  if (sepIndex <? dotIndex)
     && existsb (fun x => negb (x =? 46)%N) (slice p (sepIndex + 1) dotIndex)
  then (slice p 0 dotIndex, skipn (Z.to_nat dotIndex) p)
  else (p, []).

(** [self.supported_extensions] *)
Definition supported_extensions : list str :=
  [lit ".pdf"; lit ".docx"; lit ".txt"].

(** [x in l] for a list of strings *)
Definition str_in (x : str) (l : list str) : bool := existsb (str_eqb x) l.

Section ValidateFile.

(** [str.lower()], the Unicode case mapping of the interpreter. *)
Variable lower : str -> str.

(** [validate_file(filename, file_size)].  Nothing in the [try] block
    raises for a [str] and an [int], so the handler is never entered. *)
Definition validate_file (filename : str) (file_size : Z) : bool :=
  let file_ext := lower (snd (splitext filename)) in
  if negb (str_in file_ext supported_extensions) then false
  else
    let max_size := 50 * 1024 * 1024 in
    if file_size >? max_size then false
    else true.

End ValidateFile.

(** The case mapping restricted to ASCII letters, for running examples. *)
Definition ascii_lower (s : str) : str :=
  map (fun c => if (65 <=? c)%N && (c <=? 90)%N then (c + 32)%N else c) s.

(* ------------------------------------------------------------------ *)
(** ** The external services and the effects of calling them *)

(** The metadata dictionary stored with each chunk by [add_documents]. *)
Record Metadata := {
  md_document_id : str;
  md_chunk_index : Z;
  md_filename : str;
  md_page_number : Z
}.

(** One record of the vector-store collection. *)
Record Entry := {
  entry_id : str;
  entry_document : str;
  entry_metadata : Metadata
}.

(** What [collection.query] answers: one inner list per query text.
    Distances are floats in the interpreter and rationals here. *)
Record QueryResult := {
  ids : list (list str);
  documents : list (list str);
  metadatas : list (list Metadata);
  distances : option (list (list Q))
}.

(** What the program does to the outside, in order. *)
Inductive event :=
| CollectionQuery (query_text : str) (n_results : Z) (where_doc : option str)
| CollectionDelete (deleted : list str)
| GenerateContent (prompt : str)
| LogInfo (msg : str)
| LogError (msg : str).

(** The outside: the contents of the collection, the fate of the coming
    external calls ([Some e]: the call raises [e]; [None] or an exhausted
    list: the call goes through), and the events so far. *)
Record World := {
  collection : list Entry;
  faults : list (option exn);
  trace : list event
}.

Definition M (A : Type) : Type := World -> result A * World.

Definition ret {A} (a : A) : M A := fun w => (Ok a, w).

Definition raise {A} (e : exn) : M A := fun w => (Raise e, w).

Definition bindM {A B} (m : M A) (k : A -> M B) : M B :=
  fun w =>
    match m w with
    | (Ok a, w') => k a w'
    | (Raise e, w') => (Raise e, w')
    end.

(** [try: m except Exception as e: h e] *)
Definition try_except {A} (m : M A) (h : exn -> M A) : M A :=
  fun w =>
    match m w with
    | (Ok a, w') => (Ok a, w')
    | (Raise e, w') => h e w'
    end.

Definition lift {A} (r : result A) : M A := fun w => (r, w).

Notation "x <~ m ;; k" := (bindM m (fun x => k))
  (at level 61, m at next level, right associativity).
Notation "m ;;; k" := (bindM m (fun _ => k))
  (at level 61, right associativity).

Definition emit (ev : event) : M unit :=
  fun w => (Ok tt, {| collection := collection w;
                      faults := faults w;
                      trace := trace w ++ [ev] |}).

Definition logger_info (msg : str) : M unit := emit (LogInfo msg).
Definition logger_error (msg : str) : M unit := emit (LogError msg).

(** An external call: it is recorded, then it either raises the fault
    scheduled for it or runs [act] on the collection. *)
Definition external {A} (ev : event)
  (act : list Entry -> A * list Entry) : M A :=
  fun w =>
    let tr := trace w ++ [ev] in
    match faults w with
    | Some e :: rest =>
        (Raise e, {| collection := collection w; faults := rest; trace := tr |})
    | scheduled =>
        let (a, col) := act (collection w) in
        (Ok a, {| collection := col; faults := tl scheduled; trace := tr |})
    end.

(** [l[i]] *)
Definition index {A} (l : list A) (i : Z) : result A :=
  let j := if i <? 0 then i + len l else i in
  match (if j <? 0 then None else nth_error l (Z.to_nat j)) with
  | Some a => Ok a
  | None => Raise (IndexError (lit "list index out of range"))
  end.

(** [for x in l: ...] collecting one value per element *)
Fixpoint for_each {A B} (f : A -> result B) (l : list A) : result (list B) :=
  match l with
  | [] => Ok []
  | a :: l' => b <- f a ;; bs <- for_each f l' ;; Ok (b :: bs)
  end.

(** [needle in hay] for strings *)
Fixpoint starts_with (needle hay : str) : bool :=
  match needle, hay with
  | [], _ => true
  | _ :: _, [] => false
  | a :: needle', b :: hay' => (a =? b)%N && starts_with needle' hay'
  end.

Fixpoint contains (needle hay : str) : bool :=
  starts_with needle hay
  || match hay with
     | [] => false
     | _ :: hay' => contains needle hay'
     end.

(** [enumerate(l)] *)
Definition enumerate {A} (l : list A) : list (Z * A) :=
  combine (map Z.of_nat (seq 0 (length l))) l.

Definition nl : str := [10%N].

(* ------------------------------------------------------------------ *)
(** ** database/chroma_client.py *)

(** One formatted search result. *)
Record Hit := {
  hit_text : str;
  hit_metadata : Metadata;
  hit_distance : option Q
}.

Section VectorStore.

(** The store's own notion of nearness: a distance, and the order in
    which it returns candidates (nearest first). *)
Variable distance : str -> Entry -> Q.
Variable rank : str -> list Entry -> list Entry.

Definition matches (where_doc : option str) (e : Entry) : bool :=
  match where_doc with
  | None => true
  | Some d => str_eqb (md_document_id (entry_metadata e)) d
  end.

(** [collection.query(query_texts=[q], n_results=n, where=...)]: the [n]
    nearest entries that pass the filter. *)
Definition collection_query (q : str) (n : Z) (where_doc : option str)
  : M QueryResult :=
  external (CollectionQuery q n where_doc)
    (fun col =>
       let found :=
         firstn (Z.to_nat n) (rank q (filter (matches where_doc) col)) in
       ({| ids := [map entry_id found];
           documents := [map entry_document found];
           metadatas := [map entry_metadata found];
           distances := Some [map (distance q) found] |}, col)).

(** [collection.delete(ids=...)] *)
Definition collection_delete (deleted : list str) : M unit :=
  external (CollectionDelete deleted)
    (fun col =>
       (tt, filter (fun e => negb (str_in (entry_id e) deleted)) col)).

(** The formatting loop of [search_similar]. *)
Definition format_results (results : QueryResult) : result (list Hit) :=
  match documents results with
  | [] => Ok []
  | _ =>
      docs0 <- index (documents results) 0 ;;
      for_each
        (fun i =>
           t <- index docs0 i ;;
           metas0 <- index (metadatas results) 0 ;;
           m <- index metas0 i ;;
           d <- match distances results with
                | Some ds => ds0 <- index ds 0 ;; x <- index ds0 i ;;
                             Ok (Some x)
                | None => Ok None
                end ;;
           Ok {| hit_text := t; hit_metadata := m; hit_distance := d |})
        (range_list 0 (len docs0) 1)
  end.

(** [search_similar(query, n_results)]: any exception is logged and
    answered with the empty list. *)
Definition search_similar (query : str) (n_results : Z) : M (list Hit) :=
  try_except
    (results <~ collection_query query n_results None ;;
     formatted_results <~ lift (format_results results) ;;
     ret formatted_results)
    (fun e =>
       logger_error (lit "Error searching ChromaDB: " ++ exn_str e) ;;;
       ret []).

(** [delete_document_chunks(document_id)]: any exception is logged and
    the function returns normally. *)
Definition delete_document_chunks (document_id : str) : M unit :=
  try_except
    (results <~ collection_query [] 1000 (Some document_id) ;;
     match ids results with
     | [] => ret tt
     | _ =>
         ids0 <~ lift (index (ids results) 0) ;;
         collection_delete ids0 ;;;
         logger_info (lit "Deleted " ++ str_of_int (len ids0)
                      ++ lit " chunks for document " ++ document_id)
     end)
    (fun e =>
       logger_error (lit "Error deleting document chunks: " ++ exn_str e)).

End VectorStore.

(* ------------------------------------------------------------------ *)
(** ** services/gemini_client.py *)

Section Generation.

(** The hosted model: the text it answers to a prompt. *)
Variable llm : str -> str.
Variable lower : str -> str.

(** [self.model.generate_content(prompt)], read through [response.text] *)
Definition generate_content (prompt : str) : M str :=
  external (GenerateContent prompt) (fun col => (llm prompt, col)).

Definition make_prompt (query context_text : str) : str :=
  lit "You are a helpful AI assistant. Use the following context to answer the user's question. "
  ++ nl ++
  lit "            If the context doesn't contain enough information to answer the question, say so."
  ++ nl ++ lit "            "
  ++ nl ++ lit "            Context:"
  ++ nl ++ lit "            " ++ context_text
  ++ nl ++ lit "            "
  ++ nl ++ lit "            User Question: " ++ query
  ++ nl ++ lit "            "
  ++ nl ++
  lit "            Please provide a clear, concise, and accurate answer based on the context provided.".

(** [generate_response(query, context)]: an exception becomes the text
    that is returned. *)
Definition generate_response (query : str) (context : list str) : M str :=
  try_except
    (let context_text :=
       join (nl ++ nl)
            (map (fun ic => lit "Context " ++ str_of_int (fst ic + 1)
                            ++ lit ": " ++ snd ic)
                 (enumerate context)) in
     let prompt := make_prompt query context_text in
     response_text <~ generate_content prompt ;;
     match response_text with
     | [] =>
         ret (lit "I apologize, but I couldn't generate a response at this time.")
     | _ => ret (strip response_text)
     end)
    (fun e =>
       logger_error (lit "Error generating response: " ++ exn_str e) ;;;
       ret (lit "An error occurred while generating the response: "
            ++ exn_str e)).

(** [validate_text(text)] *)
Definition validate_text (text : str) : bool :=
  match text with
  | [] => false
  | _ =>
      if len (strip text) <? 10 then false
      else
        let inappropriate_words :=
          [lit "spam"; lit "malware"; lit "virus"] in
        let text_lower := lower text in
        negb (existsb (fun word => contains word text_lower)
                      inappropriate_words)
  end.

End Generation.

(* ------------------------------------------------------------------ *)
(** ** services/rag_pipeline.py *)

(** One element of ['sources']. *)
Record Source := {
  src_filename : str;
  src_chunk_index : Z;
  relevance_score : Q;
  text_preview : str
}.

(** The dictionary [process_query] returns: ['success'] is [False] with
    an ['error'], or [True] with the answer. *)
Inductive QueryResponse :=
| QueryFailure (error : str)
| QuerySuccess (query response : str) (sources : list Source)
    (total_sources : Z).

Definition success (r : QueryResponse) : bool :=
  match r with
  | QueryFailure _ => false
  | QuerySuccess _ _ _ _ => true
  end.

(** The dictionary [validate_query] returns. *)
Inductive QueryValidation :=
| Invalid (error : str)
| Valid (query_length : Z).

Definition valid (v : QueryValidation) : bool :=
  match v with
  | Invalid _ => false
  | Valid _ => true
  end.

Definition source_of (chunk : Hit) : Source :=
  {| src_filename := md_filename (hit_metadata chunk);
     src_chunk_index := md_chunk_index (hit_metadata chunk);
     relevance_score :=
       (1 - match hit_distance chunk with
            | Some d => if Qeq_bool d 0 then 0 else d
            | None => 0
            end)%Q;
     text_preview :=
       if len (hit_text chunk) >? 200
       then slice (hit_text chunk) 0 200 ++ lit "..."
       else hit_text chunk |}.

Section Pipeline.

Variable distance : str -> Entry -> Q.
Variable rank : str -> list Entry -> list Entry.
Variable llm : str -> str.
Variable lower : str -> str.

(** [process_query(query, n_results)] *)
Definition process_query (query : str) (n_results : Z) : M QueryResponse :=
  try_except
    (if match query with [] => true | _ => false end
        || (len (strip query) <? 3)
     then ret (QueryFailure (lit "Query must be at least 3 characters long"))
     else
       logger_info (lit "Searching for relevant chunks for query: " ++ query) ;;;
       relevant_chunks <~ search_similar distance rank query n_results ;;
       match relevant_chunks with
       | [] =>
           ret (QueryFailure (lit "No relevant documents found for your query"))
       | _ =>
           let context_texts := map hit_text relevant_chunks in
           logger_info (lit "Generating response using Gemini LLM") ;;;
           response <~ generate_response llm query context_texts ;;
           let result :=
             QuerySuccess query response
               (map source_of relevant_chunks) (len relevant_chunks) in
           logger_info (lit "Successfully processed query. Found "
                        ++ str_of_int (len relevant_chunks)
                        ++ lit " relevant sources.") ;;;
           ret result
       end)
    (fun e =>
       logger_error (lit "Error in RAG pipeline: " ++ exn_str e) ;;;
       ret (QueryFailure
              (lit "An error occurred while processing your query: "
               ++ exn_str e))).

(** [validate_query(query)].  The body calls no service and nothing in
    it raises for a [str], so the handler is never entered. *)
Definition validate_query (query : str) : QueryValidation :=
  if match query with [] => true | _ => false end
     || match strip query with [] => true | _ => false end
  then Invalid (lit "Query cannot be empty")
  else if len (strip query) <? 3
  then Invalid (lit "Query must be at least 3 characters long")
  else if len (strip query) >? 1000
  then Invalid (lit "Query is too long (maximum 1000 characters)")
  else if negb (validate_text lower query)
  then Invalid (lit "Query contains inappropriate content")
  else Valid (len (strip query)).

End Pipeline.

(* ------------------------------------------------------------------ *)
(** ** services/document_processor.py: extraction and [process_document] *)

(** What the file libraries give for a path.  Each reader can raise.
    - [pdf_pages]: [PdfReader(path).pages], each page standing for the
      outcome of its [extract_text()] ([None] read as the empty string);
    - [docx_paragraphs]: the [text] of each of [Document(path).paragraphs];
    - [txt_content]: [open(path, 'r', encoding='utf-8').read()];
    - [getsize]: [os.path.getsize(path)]. *)
Record FileSystem := {
  pdf_pages : str -> result (list (result str));
  docx_paragraphs : str -> result (list str);
  txt_content : str -> result str;
  getsize : str -> result Z
}.

(** The dictionary [document_metadata]. *)
Record DocumentMetadata := {
  dm_document_id : str;
  dm_filename : str;
  dm_file_path : str;
  dm_file_size : Z;
  dm_file_extension : str;
  dm_total_characters : Z;
  dm_total_pages : Z;
  dm_processing_status : str;
  dm_chunks_count : Z
}.

(** The dictionary [process_document] returns. *)
Record ProcessedDocument := {
  pd_metadata : DocumentMetadata;
  pd_chunks : list Chunk
}.

(** [try: m except Exception: h] for a computation without effects *)
Definition or_else {A} (m : result A) (h : exn -> result A) : result A :=
  match m with
  | Ok a => Ok a
  | Raise e => h e
  end.

(** The loop of [_extract_pdf_text] over [enumerate(reader.pages)], with
    the [text] built so far: [break] at the page limit, skip a page
    without text. *)
Fixpoint pdf_loop (max_pages : Z) (pages : list (Z * result str)) (text : str)
  : result str :=
  match pages with
  | [] => Ok text
  | (page_num, page) :: rest =>
      if page_num >=? max_pages then Ok text
      else
        page_text <- page ;;
        match page_text with
        | [] => pdf_loop max_pages rest text
        | _ =>
            pdf_loop max_pages rest
              (text ++ nl ++ lit "--- Page " ++ str_of_int (page_num + 1)
                    ++ lit " ---" ++ nl ++ page_text ++ nl)
        end
  end.

(** The loop of [_extract_docx_text]. *)
Fixpoint docx_loop (paragraphs : list str) (text : str) : str :=
  match paragraphs with
  | [] => text
  | para :: rest =>
      match strip para with
      | [] => docx_loop rest text
      | _ => docx_loop rest (text ++ para ++ nl)
      end
  end.

Section DocumentProcessor.

Variable cfg : Config.

(** [Config.MAX_PAGES_PER_DOCUMENT] *)
Variable MAX_PAGES_PER_DOCUMENT : Z.

Variable fs : FileSystem.

(** [str.lower()] *)
Variable lower : str -> str.

(** [_extract_pdf_text(file_path)]; the handler logs and re-raises. *)
Definition _extract_pdf_text (file_path : str) : result str :=
  pages <- pdf_pages fs file_path ;;
  text <- pdf_loop MAX_PAGES_PER_DOCUMENT (enumerate pages) [] ;;
  Ok (strip text).

(** [_extract_docx_text(file_path)] *)
Definition _extract_docx_text (file_path : str) : result str :=
  paragraphs <- docx_paragraphs fs file_path ;;
  Ok (strip (docx_loop paragraphs [])).

(** [_extract_txt_text(file_path)] *)
Definition _extract_txt_text (file_path : str) : result str :=
  text <- txt_content fs file_path ;;
  Ok (strip text).

(** [_count_pages(file_path, file_ext)]: any exception gives 1. *)
Definition _count_pages (file_path file_ext : str) : result Z :=
  or_else
    (if str_eqb file_ext (lit ".pdf") then
       pages <- pdf_pages fs file_path ;;
       Ok (len pages)
     else if str_eqb file_ext (lit ".docx") then
       paragraphs <- docx_paragraphs fs file_path ;;
       Ok (Z.max 1 (len paragraphs / 50))
     else if str_eqb file_ext (lit ".txt") then
       content <- txt_content fs file_path ;;
       Ok (Z.max 1 (len content / 2000))
     else Ok 1)
    (fun _ => Ok 1).

(** [process_document(file_path, filename)], with [new_id] for
    [str(uuid.uuid4())]; the handler logs and re-raises. *)
Definition process_document (new_id file_path fname : str)
  : result ProcessedDocument :=
  let file_ext := lower (snd (splitext fname)) in
  if negb (str_in file_ext supported_extensions)
  then Raise (ValueError (lit "Unsupported file type: " ++ file_ext))
  else
    text <-
      (if str_eqb file_ext (lit ".pdf") then _extract_pdf_text file_path
       else if str_eqb file_ext (lit ".docx") then _extract_docx_text file_path
       else if str_eqb file_ext (lit ".txt") then _extract_txt_text file_path
       else Raise (ValueError (lit "Unsupported file type: " ++ file_ext))) ;;
    if match text with [] => true | _ => false end
       || (len (strip text) <? 10)
    then Raise (ValueError (lit "Document contains insufficient text content"))
    else
      let document_id := new_id in
      file_size <- getsize fs file_path ;;
      total_pages <- _count_pages file_path file_ext ;;
      chunks <- _chunk_text cfg text document_id fname ;;
      Ok {| pd_metadata :=
              {| dm_document_id := document_id;
                 dm_filename := fname;
                 dm_file_path := file_path;
                 dm_file_size := file_size;
                 dm_file_extension := file_ext;
                 dm_total_characters := len text;
                 dm_total_pages := total_pages;
                 dm_processing_status := lit "completed";
                 dm_chunks_count := len chunks |};
            pd_chunks := chunks |}.

End DocumentProcessor.

(* ------------------------------------------------------------------ *)
(** ** main.py: the [/query] endpoint *)

(** What an endpoint answers: the returned body, or the [HTTPException]
    it raises. *)
Inductive HttpResponse (A : Type) :=
| Http200 (body : A)
| HttpError (status_code : Z) (detail : str).
Arguments Http200 {A} body.
Arguments HttpError {A} status_code detail.

Section Endpoints.

Variable distance : str -> Entry -> Q.
Variable rank : str -> list Entry -> list Entry.
Variable llm : str -> str.
Variable lower : str -> str.

(** [query_documents(query_request)].  An [HTTPException] raised in the
    body passes the first handler unchanged; any other exception is
    logged and becomes a 500. *)
Definition query_documents (query : str) (n_results : Z)
  : M (HttpResponse QueryResponse) :=
  try_except
    (match validate_query lower query with
     | Invalid error => ret (HttpError 400 error)
     | Valid _ =>
         result <~ process_query distance rank llm query n_results ;;
         match result with
         | QueryFailure error => ret (HttpError 400 error)
         | QuerySuccess _ _ _ _ => ret (Http200 result)
         end
     end)
    (fun e =>
       logger_error (lit "Error processing query: " ++ exn_str e) ;;;
       ret (HttpError 500 (lit "Internal server error"))).

End Endpoints.

(** How many search calls and generation calls a trace holds. *)
Definition is_search (ev : event) : bool :=
  match ev with CollectionQuery _ _ _ => true | _ => false end.

Definition is_generation (ev : event) : bool :=
  match ev with GenerateContent _ => true | _ => false end.

Definition search_calls (t : list event) : nat := length (filter is_search t).

Definition generation_calls (t : list event) : nat :=
  length (filter is_generation t).

(** The words [validate_text] refuses. *)
Definition has_inappropriate_word (s : str) : bool :=
  existsb (fun word => contains word s) [lit "spam"; lit "malware"; lit "virus"].

(** A file system with one file of each kind, for the examples. *)
Definition sample_fs : FileSystem :=
  {| pdf_pages := fun _ =>
       Ok [Ok (lit "First page of the report."); Ok [];
           Ok (lit "Third page."); Raise (ServiceError (lit "damaged page"))];
     docx_paragraphs := fun _ =>
       Ok [lit "A first paragraph."; lit "   "; lit "A second paragraph."];
     txt_content := fun _ => Ok (lit "  a short note of thirty chars.  ");
     getsize := fun _ => Ok 2048 |}.

(* ------------------------------------------------------------------ *)
(** ** Sample inputs and auxiliary definitions for the proofs *)

(** The text of [n] one-letter words used in the examples below. *)
Definition sample_text (n : nat) : str := repeat_word (lit "a") n.

(** A small store and two harmless collaborators for the examples. *)
Definition sample_entry (doc : str) (k : Z) : Entry :=
  {| entry_id := doc ++ lit "_chunk_" ++ str_of_int k;
     entry_document := lit "Rust is a systems programming language.";
     entry_metadata :=
       {| md_document_id := doc; md_chunk_index := k;
          md_filename := lit "notes.txt"; md_page_number := 0 |} |}.

Definition sample_distance (q : str) (e : Entry) : Q := 1 # 4.
Definition sample_rank (q : str) (l : list Entry) : list Entry := l.
Definition sample_llm (prompt : str) : str := lit "A language.".

Definition sample_world (fs : list (option exn)) : World :=
  {| collection := [sample_entry (lit "doc") 0];
     faults := fs;
     trace := [] |}.

(** The formatted result for one entry the store returns. *)
Definition hit_of (distance : str -> Entry -> Q) (q : str) (e : Entry) : Hit :=
  {| hit_text := entry_document e;
     hit_metadata := entry_metadata e;
     hit_distance := Some (distance q e) |}.

(** The formatted results of a search that goes through. *)
Definition hits_for (distance : str -> Entry -> Q)
  (rank : str -> list Entry -> list Entry) (q : str) (n : Z) (w : World)
  : list Hit :=
  map (hit_of distance q) (firstn (Z.to_nat n) (rank q (collection w))).

(** The prompt [generate_response] sends for a query and its hits. *)
Definition prompt_for (query : str) (hits : list Hit) : str :=
  make_prompt query
    (join (nl ++ nl)
       (map (fun ic => lit "Context " ++ str_of_int (fst ic + 1)
                       ++ lit ": " ++ snd ic)
            (enumerate (map hit_text hits)))).

(** Runs the effect combinators of a computation as far as they go. *)
Ltac run_effects :=
  cbv beta iota zeta delta
    [try_except bindM ret lift emit logger_info logger_error external
     search_similar collection_query collection_delete generate_response
     generate_content delete_document_chunks];
  cbn [faults trace collection tl].

Definition sample_error : exn := ServiceError (lit "connection refused").

(** A store that holds 1001 chunks of the document [doc]. *)
Definition crowded_store : list Entry :=
  map (fun k => sample_entry (lit "doc") (Z.of_nat k)) (seq 0 1001).

(** The entries the query of [delete_document_chunks] returns. *)
Definition found_for_delete (rank : str -> list Entry -> list Entry)
  (doc : str) (w : World) : list Entry :=
  firstn (Z.to_nat 1000)
         (rank [] (filter (matches (Some doc)) (collection w))).

(* ------------------------------------------------------------------ *)
(** ** Facts about strings *)

Section StrFacts.

Lemma len_nonneg {A} (l : list A) : 0 <= len l.
Proof. unfold len. lia. Qed.

Lemma len_app {A} (l1 l2 : list A) : len (l1 ++ l2) = len l1 + len l2.
Proof. unfold len. rewrite length_app. lia. Qed.

Lemma split_from_words (s cur : str) :
  Forall (fun c => is_space c = false) cur ->
  Forall is_word (split_from cur s).
Proof.
  revert cur. induction s as [|c s IH]; intros cur Hcur; simpl.
  - destruct cur; constructor; [|constructor].
    split; [discriminate|assumption].
  - destruct (is_space c) eqn:Hc.
    + destruct cur as [|c0 cur'].
      * apply IH. constructor.
      * constructor; [split; [discriminate|assumption]|].
        apply IH. constructor.
    + apply IH. apply Forall_app. split; [assumption|].
      constructor; [assumption|constructor].
Qed.

Lemma split_words (s : str) : Forall is_word (split s).
Proof. apply split_from_words. constructor. Qed.

Lemma lstrip_head (c : char) (s : str) :
  is_space c = false -> lstrip (c :: s) = c :: s.
Proof. intros H. simpl. now rewrite H. Qed.

Lemma lstrip_word_app (w rest : str) :
  is_word w -> lstrip (w ++ rest) = w ++ rest.
Proof.
  intros [Hne Hall]. destruct w as [|c w]; [congruence|].
  inversion Hall; subst. now apply lstrip_head.
Qed.

Lemma is_word_rev (w : str) : is_word w -> is_word (rev w).
Proof.
  intros [Hne Hall]. split.
  - intros E. apply Hne. rewrite <- (rev_involutive w), E. reflexivity.
  - now apply Forall_rev.
Qed.

(** A joined list of words starts with its first word ... *)
Lemma join_first (sep : str) (w : str) (ws : list str) :
  exists rest, join sep (w :: ws) = w ++ rest.
Proof.
  destruct ws as [|w' ws].
  - exists []. simpl. now rewrite app_nil_r.
  - eexists. simpl. reflexivity.
Qed.

(** ... and ends with its last one. *)
Lemma join_last (sep : str) (ws : list str) (w : str) :
  exists front, join sep (ws ++ [w]) = front ++ w.
Proof.
  induction ws as [|w0 ws IH].
  - exists []. reflexivity.
  - destruct IH as [front IH].
    exists (w0 ++ sep ++ front).
    change ((w0 :: ws) ++ [w]) with (w0 :: (ws ++ [w])).
    destruct (ws ++ [w]) as [|x xs] eqn:E.
    + destruct ws; discriminate.
    + change (join sep (w0 :: x :: xs)) with (w0 ++ sep ++ join sep (x :: xs)).
      rewrite IH. now rewrite <- !app_assoc.
Qed.

(** Trimming a joined list of words removes nothing. *)
Lemma strip_join_words (sep : str) (ws : list str) :
  Forall is_word ws -> strip (join sep ws) = join sep ws.
Proof.
  intros Hws. destruct ws as [|w ws]; [reflexivity|].
  unfold strip, rstrip.
  assert (Hl : lstrip (join sep (w :: ws)) = join sep (w :: ws)).
  { destruct (join_first sep w ws) as [rest ->].
    apply lstrip_word_app. now inversion Hws. }
  rewrite Hl.
  destruct (exists_last (l := w :: ws)) as [front [wl E]]; [discriminate|].
  rewrite E in *.
  destruct (join_last sep front wl) as [pre ->].
  rewrite rev_app_distr, lstrip_word_app.
  - now rewrite <- rev_app_distr, rev_involutive.
  - apply is_word_rev. apply Forall_app in Hws. destruct Hws as [_ Hw].
    now inversion Hw.
Qed.

(** Joining [k >= 1] words with a one-character separator gives at
    least [2k - 1] characters. *)
Lemma len_join_words (c : char) (ws : list str) :
  Forall is_word ws -> ws <> [] ->
  2 * len ws - 1 <= len (join [c] ws).
Proof.
  induction ws as [|w ws IH]; intros Hws Hne; [congruence|].
  inversion Hws as [|? ? [Hw _] Hrest]; subst.
  assert (Hw1 : 1 <= len w).
  { destruct w; [congruence|]. unfold len. simpl length. lia. }
  destruct ws as [|w' ws].
  - unfold len in *. simpl. simpl length. lia.
  - change (join [c] (w :: w' :: ws)) with (w ++ [c] ++ join [c] (w' :: ws)).
    rewrite !len_app.
    specialize (IH Hrest ltac:(discriminate)).
    revert IH Hw1. unfold len. simpl length. lia.
Qed.

End StrFacts.

(* ------------------------------------------------------------------ *)
(** ** Facts about slices and ranges *)

Section SeqFacts.

Context {A : Type}.

Lemma clamp_index_nonneg (n i : Z) :
  0 <= i -> clamp_index n i = Z.min i n.
Proof. intros H. unfold clamp_index. destruct (Z.ltb_spec i 0); lia. Qed.

Lemma slice_empty (l : list A) (a : Z) : slice l a a = [].
Proof. unfold slice. now rewrite Z.sub_diag. Qed.

(** The length of [l[a:b]] for bounds that are not negative. *)
Lemma len_slice (l : list A) (a b : Z) :
  0 <= a -> a <= b ->
  len (slice l a b) = Z.min b (len l) - Z.min a (len l).
Proof.
  intros Ha Hab. unfold slice.
  rewrite !clamp_index_nonneg by lia.
  unfold len. rewrite length_firstn, length_skipn. lia.
Qed.

Lemma slice_whole (l : list A) (b : Z) :
  len l <= b -> slice l 0 b = l.
Proof.
  intros Hb. unfold slice. pose proof (len_nonneg l).
  rewrite !clamp_index_nonneg by lia.
  rewrite Z.min_r, Z.min_l by lia. simpl skipn.
  rewrite Z.sub_0_r. unfold len. rewrite Nat2Z.id. apply firstn_all.
Qed.

Lemma Forall_slice (P : A -> Prop) (l : list A) (a b : Z) :
  Forall P l -> Forall P (slice l a b).
Proof.
  intros H. unfold slice.
  set (m := Z.to_nat (clamp_index (len l) a)).
  set (k := Z.to_nat _).
  rewrite <- (firstn_skipn m l) in H.
  apply Forall_app in H. destruct H as [_ H].
  rewrite <- (firstn_skipn k (skipn m l)) in H.
  apply Forall_app in H. tauto.
Qed.

End SeqFacts.

Section RangeFacts.

Variables n step : Z.
Hypothesis step_pos : 0 < step.

(** [range(0, n, step)] lists the multiples of [step] below [n]. *)
Lemma range_list_In (i : Z) :
  In i (range_list 0 n step) <-> 0 <= i < n /\ (step | i).
Proof.
  unfold range_list, range_len.
  destruct (Z.ltb_spec 0 step) as [_|]; [|lia].
  rewrite in_map_iff. split.
  - intros [k [<- Hk]]. apply in_seq in Hk.
    destruct (Z.ltb_spec 0 n) as [Hn|Hn]; [|simpl in Hk; lia].
    rewrite Z.sub_0_r in Hk.
    assert (0 <= (n - 1) / step) by (apply Z.div_pos; lia).
    assert (Z.of_nat k <= (n - 1) / step) by lia.
    pose proof (Z.mul_div_le (n - 1) step step_pos).
    split; [nia|]. exists (Z.of_nat k). lia.
  - intros [[Hi Hn] [q ->]].
    assert (0 <= q) by nia.
    exists (Z.to_nat q). split; [lia|].
    apply in_seq. destruct (Z.ltb_spec 0 n); [|lia].
    rewrite Z.sub_0_r.
    assert (q <= (n - 1) / step) by (apply Z.div_le_lower_bound; lia).
    lia.
Qed.

Lemma range_list_sorted : StronglySorted Z.lt (range_list 0 n step).
Proof.
  unfold range_list. generalize (Z.to_nat (range_len 0 n step)) as c.
  generalize 0%nat as m. intros m c. revert m.
  induction c as [|c IH]; intros m; simpl; constructor.
  - apply IH.
  - apply Forall_forall. intros x Hx.
    apply in_map_iff in Hx. destruct Hx as [k [<- Hk]].
    apply in_seq in Hk. nia.
Qed.

End RangeFacts.

(** In a sorted list every element is below the ones that follow it. *)
Lemma sorted_app_inv (l1 l2 : list Z) (x : Z) :
  StronglySorted Z.lt (l1 ++ x :: l2) ->
  Forall (fun y => y < x) l1 /\ Forall (fun y => x < y) l2.
Proof.
  induction l1 as [|a l1 IH]; simpl; intros H.
  - apply StronglySorted_inv in H. now split.
  - apply StronglySorted_inv in H. destruct H as [Hs Ha].
    destruct (IH Hs) as [H1 H2]. split; [|assumption].
    constructor; [|assumption].
    rewrite Forall_forall in Ha. apply Ha. apply in_elt.
Qed.

(** The first element a filter lets through is preceded by rejected
    elements only. *)
Lemma filter_first {A} (p : A -> bool) (xs l : list A) (b : A) :
  filter p xs = b :: l ->
  exists mid xs2,
    xs = mid ++ b :: xs2
    /\ Forall (fun x => p x = false) mid
    /\ filter p xs2 = l.
Proof.
  induction xs as [|x xs IH]; simpl; intros H; [discriminate|].
  destruct (p x) eqn:Hpx.
  - injection H as -> H. exists [], xs. repeat split; auto.
  - destruct (IH H) as (mid & xs2 & -> & Hmid & Hf).
    exists (x :: mid), xs2. repeat split; auto.
Qed.

(** Two neighbours of a filtered list come from the original list with
    only rejected elements between them. *)
Lemma filter_neighbours {A} (p : A -> bool) (xs l1 l2 : list A) (a b : A) :
  filter p xs = l1 ++ a :: b :: l2 ->
  exists xs1 mid xs2,
    xs = xs1 ++ a :: mid ++ b :: xs2
    /\ Forall (fun x => p x = false) mid
    /\ filter p xs2 = l2.
Proof.
  revert l1. induction xs as [|x xs IH]; intros l1 H; simpl in H.
  - destruct l1; discriminate.
  - destruct (p x) eqn:Hpx.
    + destruct l1 as [|y l1]; simpl in H; injection H as -> H.
      * destruct (filter_first p xs l2 b H) as (mid & xs2 & -> & Hmid & Hf).
        exists [], mid, xs2. repeat split; auto.
      * destruct (IH l1 H) as (xs1 & mid & xs2 & -> & Hmid & Hf).
        exists (y :: xs1), mid, xs2. repeat split; auto.
    + destruct (IH l1 H) as (xs1 & mid & xs2 & -> & Hmid & Hf).
      exists (x :: xs1), mid, xs2. repeat split; auto.
Qed.

(* ------------------------------------------------------------------ *)
(** ** The loop of [_chunk_text] as a filter followed by a map *)

Section ChunkLoop.

Variable cfg : Config.
Variable words : list str.
Variables doc_id fname : str.

Lemma keeps_chunk_size_nonzero (i : Z) :
  keeps cfg words i = true -> CHUNK_SIZE cfg <> 0.
Proof.
  unfold keeps, chunk_text, chunk_words. intros H E.
  rewrite E, Z.add_0_r, slice_empty in H. discriminate.
Qed.

Lemma chunk_step_spec (chunks : list Chunk) (i : Z) :
  chunk_step cfg words doc_id fname chunks i
  = Ok (if keeps cfg words i
        then chunks ++ [chunk_at cfg words doc_id fname i]
        else chunks).
Proof.
  pose proof (keeps_chunk_size_nonzero i) as Hnz.
  unfold chunk_step, keeps in *.
  destruct (len (strip (chunk_text cfg words i)) <? 50); simpl; [reflexivity|].
  unfold floordiv.
  destruct (Z.eqb_spec (CHUNK_SIZE cfg) 0) as [E|_]; [now elim Hnz|].
  reflexivity.
Qed.

Lemma chunk_loop_spec (starts : list Z) (chunks : list Chunk) :
  chunk_loop cfg words doc_id fname chunks starts
  = Ok (chunks ++ map (chunk_at cfg words doc_id fname)
                      (filter (keeps cfg words) starts)).
Proof.
  revert chunks. induction starts as [|i rest IH]; intros chunks; simpl.
  - now rewrite app_nil_r.
  - rewrite chunk_step_spec. simpl. rewrite IH.
    destruct (keeps cfg words i); simpl; [|reflexivity].
    now rewrite <- app_assoc.
Qed.

End ChunkLoop.

(** [_chunk_text] returns a list exactly when the stride
    [CHUNK_SIZE - CHUNK_OVERLAP] is not zero, and the list is then the
    surviving windows of [range(0, len(words), stride)], in order. *)
Lemma _chunk_text_spec (cfg : Config) (text doc_id fname : str) :
  CHUNK_SIZE cfg - CHUNK_OVERLAP cfg <> 0 ->
  _chunk_text cfg text doc_id fname
  = Ok (map (chunk_at cfg (split text) doc_id fname)
            (filter (keeps cfg (split text))
                    (range_list 0 (len (split text))
                                (CHUNK_SIZE cfg - CHUNK_OVERLAP cfg)))).
Proof.
  intros Hs. unfold _chunk_text, range.
  destruct (Z.eqb_spec (CHUNK_SIZE cfg - CHUNK_OVERLAP cfg) 0); [contradiction|].
  simpl. now rewrite chunk_loop_spec.
Qed.

Lemma _chunk_text_zero_stride (cfg : Config) (text doc_id fname : str) :
  CHUNK_SIZE cfg = CHUNK_OVERLAP cfg ->
  _chunk_text cfg text doc_id fname
  = Raise (ValueError (lit "range() arg 3 must not be zero")).
Proof.
  intros E. unfold _chunk_text, range. rewrite E, Z.sub_diag. reflexivity.
Qed.

(* ------------------------------------------------------------------ *)
(** ** Windows of [_chunk_text] *)

Section Windows.

Variable cfg : Config.
Variable text : str.

Let W := CHUNK_SIZE cfg.
Let n := len (split text).

Lemma chunk_words_are_words (i : Z) :
  Forall is_word (chunk_words cfg (split text) i).
Proof. apply Forall_slice, split_words. Qed.

Lemma strip_chunk_text (i : Z) :
  strip (chunk_text cfg (split text) i) = chunk_text cfg (split text) i.
Proof. apply strip_join_words, chunk_words_are_words. Qed.

Lemma len_chunk_words (i : Z) :
  0 <= i -> 0 <= W ->
  len (chunk_words cfg (split text) i) = Z.min (i + W) n - Z.min i n.
Proof. intros Hi HW. unfold chunk_words. apply len_slice; subst W; lia. Qed.

(** A window of at least 26 words always passes the length test. *)
Lemma keeps_long_window (i : Z) :
  0 <= i -> 0 <= W -> 26 <= Z.min (i + W) n - Z.min i n ->
  keeps cfg (split text) i = true.
Proof.
  intros Hi HW Hlen. unfold keeps. rewrite strip_chunk_text.
  pose proof (len_chunk_words i Hi HW) as Hcw.
  apply negb_true_iff, Z.ltb_ge. unfold chunk_text.
  eapply Z.le_trans;
    [|apply (len_join_words 32%N _ (chunk_words_are_words i))].
  - lia.
  - intros E. rewrite E in Hcw. unfold len in Hcw at 1. simpl in Hcw. lia.
Qed.

End Windows.

(* ------------------------------------------------------------------ *)
(** ** Properties of [_chunk_text] *)

(** Every chunk of the output is [chunk_at] of a surviving start index
    of the range. *)
Lemma chunk_in_output (cfg : Config) (text doc_id fname : str) (c : Chunk) :
  In c (map (chunk_at cfg (split text) doc_id fname)
            (filter (keeps cfg (split text))
                    (range_list 0 (len (split text))
                                (CHUNK_SIZE cfg - CHUNK_OVERLAP cfg)))) ->
  exists i,
    c = chunk_at cfg (split text) doc_id fname i
    /\ keeps cfg (split text) i = true
    /\ In i (range_list 0 (len (split text))
                        (CHUNK_SIZE cfg - CHUNK_OVERLAP cfg)).
Proof.
  intros H. apply in_map_iff in H. destruct H as [i [<- Hi]].
  apply filter_In in Hi. exists i. tauto.
Qed.

(** A step that is negative gives an empty range when counting up from 0
    to a length. *)
Lemma range_list_negative_step (n step : Z) :
  0 <= n -> step < 0 -> range_list 0 n step = [].
Proof.
  intros Hn Hs. unfold range_list, range_len.
  destruct (Z.ltb_spec 0 step); [lia|].
  destruct (Z.ltb_spec n 0); [lia|]. reflexivity.
Qed.

(** C5 (confirmed).  Whenever the stride is not zero, [_chunk_text]
    returns a list in which every chunk has a trimmed text of at least
    50 characters, and no chunk starts at a window whose joined text has
    a trimmed length below 50. *)
Theorem short_windows_are_dropped (cfg : Config) (txt doc_id fname : str) :
  CHUNK_SIZE cfg <> CHUNK_OVERLAP cfg ->
  exists chunks,
    _chunk_text cfg txt doc_id fname = Ok chunks
    /\ (forall c, In c chunks -> 50 <= len (strip (text c)))
    /\ (forall i,
          len (strip (chunk_text cfg (split txt) i)) < 50 ->
          forall c, In c chunks -> start_word_index c <> i).
Proof.
  intros Hs. eexists. split; [apply _chunk_text_spec; lia|].
  split.
  - intros c Hc. apply chunk_in_output in Hc.
    destruct Hc as (i & -> & Hk & _). unfold keeps in Hk. simpl.
    destruct (Z.ltb_spec (len (strip (chunk_text cfg (split txt) i))) 50);
      [discriminate|assumption].
  - intros i Hshort c Hc E. apply chunk_in_output in Hc.
    destruct Hc as (j & -> & Hk & _). simpl in E. subst j.
    unfold keeps in Hk.
    destruct (Z.ltb_spec (len (strip (chunk_text cfg (split txt) i))) 50);
      [discriminate|lia].
Qed.

Lemma short_windows_are_dropped_witness :
  exists chunks,
    _chunk_text default_config (sample_text 30) (lit "doc") (lit "f.txt")
    = Ok chunks
    /\ (forall c, In c chunks -> 50 <= len (strip (text c)))
    /\ (forall i,
          len (strip (chunk_text default_config (split (sample_text 30)) i))
          < 50 ->
          forall c, In c chunks -> start_word_index c <> i).
Proof.
  apply (short_windows_are_dropped default_config (sample_text 30)).
  simpl. lia.
Defined.

(** C10 (confirmed).  For a window size that is not negative and a stride
    that is not zero, every chunk of the output starts at a multiple of
    the stride [CHUNK_SIZE - CHUNK_OVERLAP], ends at
    [min(start + CHUNK_SIZE, n)], which is at most [n], and counts
    [end - start] words, where [n] is the number of words of the text. *)
Theorem chunk_span_invariants (cfg : Config) (text doc_id fname : str) :
  0 <= CHUNK_SIZE cfg ->
  CHUNK_SIZE cfg <> CHUNK_OVERLAP cfg ->
  exists chunks,
    _chunk_text cfg text doc_id fname = Ok chunks
    /\ forall c, In c chunks ->
         (CHUNK_SIZE cfg - CHUNK_OVERLAP cfg | start_word_index c)
         /\ end_word_index c
            = Z.min (start_word_index c + CHUNK_SIZE cfg) (len (split text))
         /\ word_count c = end_word_index c - start_word_index c
         /\ end_word_index c <= len (split text).
Proof.
  intros HW Hs. eexists. split; [apply _chunk_text_spec; lia|].
  intros c Hc. apply chunk_in_output in Hc.
  destruct Hc as (i & -> & Hk & Hi). simpl.
  pose proof (len_nonneg (split text)) as Hn.
  destruct (Z.lt_trichotomy (CHUNK_SIZE cfg - CHUNK_OVERLAP cfg) 0)
    as [Hneg|[Hz|Hpos]].
  - rewrite range_list_negative_step in Hi by lia. destruct Hi.
  - lia.
  - apply range_list_In in Hi; [|assumption]. destruct Hi as [[Hi0 Hin] Hdiv].
    repeat split; [assumption| |lia].
    rewrite len_chunk_words by assumption. lia.
Qed.

Lemma chunk_span_invariants_witness :
  exists chunks,
    _chunk_text default_config (sample_text 30) (lit "doc") (lit "f.txt")
    = Ok chunks
    /\ forall c, In c chunks ->
         (CHUNK_SIZE default_config - CHUNK_OVERLAP default_config
          | start_word_index c)
         /\ end_word_index c
            = Z.min (start_word_index c + CHUNK_SIZE default_config)
                    (len (split (sample_text 30)))
         /\ word_count c = end_word_index c - start_word_index c
         /\ end_word_index c <= len (split (sample_text 30)).
Proof.
  apply (chunk_span_invariants default_config (sample_text 30));
    simpl; lia.
Defined.

(** With a positive stride that covers the whole text, the range has the
    single start index 0. *)
Lemma range_list_single (n step : Z) :
  0 < n -> n <= step -> range_list 0 n step = [0].
Proof.
  intros Hn Hs. unfold range_list, range_len.
  destruct (Z.ltb_spec 0 step); [|lia].
  destruct (Z.ltb_spec 0 n); [|lia].
  rewrite Z.sub_0_r, Z.div_small by lia. reflexivity.
Qed.

Lemma range_list_empty (step : Z) : range_list 0 0 step = [].
Proof.
  unfold range_list, range_len.
  destruct (0 <? step); reflexivity.
Qed.

(** C2, as amended.  When the text has fewer than [CHUNK_SIZE] words and
    no more than the stride [CHUNK_SIZE - CHUNK_OVERLAP], [_chunk_text]
    returns exactly one chunk, holding the whole joined text over the
    span [[0, n)], if the joined and trimmed text has at least
    50 characters, and no chunk otherwise. *)
Theorem short_text_one_chunk (cfg : Config) (txt doc_id fname : str) :
  CHUNK_OVERLAP cfg < CHUNK_SIZE cfg ->
  len (split txt) < CHUNK_SIZE cfg ->
  len (split txt) <= CHUNK_SIZE cfg - CHUNK_OVERLAP cfg ->
  exists chunks,
    _chunk_text cfg txt doc_id fname = Ok chunks
    /\ (50 <= len (strip (join (lit " ") (split txt))) ->
        exists c, chunks = [c]
                  /\ text c = join (lit " ") (split txt)
                  /\ span c = (0, len (split txt)))
    /\ (len (strip (join (lit " ") (split txt))) < 50 -> chunks = []).
Proof.
  intros HO Hn Hstride. eexists.
  split; [apply _chunk_text_spec; lia|].
  pose proof (len_nonneg (split txt)) as Hn0.
  assert (Hn0' : len (split txt) = 0 \/ 0 < len (split txt)) by lia.
  destruct Hn0' as [Hz|Hpos].
  - rewrite Hz, range_list_empty. simpl.
    assert (E : split txt = []).
    { destruct (split txt); [reflexivity|]. unfold len in Hz. simpl in Hz. lia. }
    rewrite E. simpl. split; [|reflexivity].
    unfold len. simpl. lia.
  - rewrite range_list_single by lia. simpl.
    assert (Et : chunk_text cfg (split txt) 0 = join (lit " ") (split txt)).
    { unfold chunk_text, chunk_words. rewrite slice_whole by lia. reflexivity. }
    unfold keeps. rewrite Et.
    destruct (Z.ltb_spec (len (strip (join (lit " ") (split txt)))) 50);
      simpl; split; try lia; try reflexivity.
    intros _. eexists. split; [reflexivity|]. split; [exact Et|].
    unfold span. simpl. f_equal. lia.
Qed.

Lemma short_text_one_chunk_witness :
  exists chunks,
    _chunk_text default_config (sample_text 30) (lit "doc") (lit "f.txt")
    = Ok chunks
    /\ (50 <= len (strip (join (lit " ") (split (sample_text 30)))) ->
        exists c, chunks = [c]
                  /\ text c = join (lit " ") (split (sample_text 30))
                  /\ span c = (0, len (split (sample_text 30))))
    /\ (len (strip (join (lit " ") (split (sample_text 30)))) < 50 ->
        chunks = []).
Proof.
  apply (short_text_one_chunk default_config (sample_text 30));
    vm_compute; congruence.
Defined.

(** C2, as stated, fails: under the default configuration a text of 900
    words has fewer than [CHUNK_SIZE] words and a joined text of 1799
    characters, yet the output has the two chunks [[0,900)] and
    [[800,900)]. *)
Lemma short_text_two_chunks :
  len (split (sample_text 900)) < CHUNK_SIZE default_config
  /\ 50 <= len (strip (join (lit " ") (split (sample_text 900))))
  /\ exists chunks,
       _chunk_text default_config (sample_text 900) (lit "doc") (lit "f.txt")
       = Ok chunks
       /\ map span chunks = [(0, 900); (800, 900)]
       /\ length chunks <> 1%nat.
Proof.
  split; [vm_compute; reflexivity|].
  split; [vm_compute; congruence|].
  eexists. split; [vm_compute; reflexivity|].
  split; [vm_compute; reflexivity|]. simpl. lia.
Qed.

(** C1, as amended.  Under the default configuration ([CHUNK_SIZE] 1000,
    [CHUNK_OVERLAP] 200) every text of exactly 2500 words yields exactly
    four chunks, over the word spans [[0,1000)], [[800,1800)],
    [[1600,2500)] and [[2400,2500)]. *)
Theorem chunks_of_2500_words (txt doc_id fname : str) :
  len (split txt) = 2500 ->
  exists chunks,
    _chunk_text default_config txt doc_id fname = Ok chunks
    /\ length chunks = 4%nat
    /\ map span chunks
       = [(0, 1000); (800, 1800); (1600, 2500); (2400, 2500)].
Proof.
  intros Hn. eexists.
  split; [apply _chunk_text_spec; simpl; lia|].
  rewrite Hn.
  change (range_list 0 2500
            (CHUNK_SIZE default_config - CHUNK_OVERLAP default_config))
    with [0; 800; 1600; 2400].
  assert (Hk : forall i, In i [0; 800; 1600; 2400] ->
                         keeps default_config (split txt) i = true).
  { intros i Hi. apply keeps_long_window; simpl in *; lia. }
  simpl filter.
  rewrite !Hk by (simpl; tauto).
  split; [reflexivity|].
  unfold span. simpl. rewrite Hn. reflexivity.
Qed.

Lemma chunks_of_2500_words_witness :
  exists chunks,
    _chunk_text default_config (sample_text 2500) (lit "doc") (lit "f.txt")
    = Ok chunks
    /\ length chunks = 4%nat
    /\ map span chunks
       = [(0, 1000); (800, 1800); (1600, 2500); (2400, 2500)].
Proof.
  apply (chunks_of_2500_words (sample_text 2500)).
  vm_compute. reflexivity.
Defined.

(** C1, as stated, fails: the 2500-word text of one-letter words gives
    four chunks under the default configuration, the last one over
    [[2400,2500)], and not three. *)
Lemma three_chunks_of_2500_words_fails :
  len (split (sample_text 2500)) = 2500
  /\ exists chunks,
       _chunk_text default_config (sample_text 2500) (lit "doc") (lit "f.txt")
       = Ok chunks
       /\ map span chunks
          = [(0, 1000); (800, 1800); (1600, 2500); (2400, 2500)]
       /\ map span chunks <> [(0, 1000); (800, 1800); (1600, 2500)]
       /\ length chunks <> 3%nat.
Proof.
  split; [vm_compute; reflexivity|].
  eexists. split; [vm_compute; reflexivity|].
  split; [vm_compute; reflexivity|].
  split; [vm_compute; discriminate|vm_compute; discriminate].
Qed.

(** Three successive elements of a list, by position. *)
Lemma nth_error_three {A} (l : list A) (k : nat) (a b : A) :
  nth_error l k = Some a ->
  nth_error l (S k) = Some b ->
  (S (S k) < length l)%nat ->
  exists l1 c l2, l = l1 ++ a :: b :: c :: l2.
Proof.
  intros Ha Hb Hlen.
  destruct (nth_error_split l k Ha) as (l1 & r & -> & Hk).
  rewrite nth_error_app2 in Hb by lia.
  replace (S k - length l1)%nat with 1%nat in Hb by lia.
  rewrite length_app in Hlen. simpl in Hlen.
  destruct r as [|b' [|c r]]; simpl in *; try discriminate; try lia.
  injection Hb as ->. now exists l1, c, r.
Qed.

(** C3, as amended.  When the overlap is not negative and at most half
    the window size, and the window size is at least 26 words (so that no
    full window can fall under the 50-character minimum), any two
    consecutive chunks of the output of which the second is not the final
    chunk share exactly [CHUNK_OVERLAP] words; the first of the two is a
    full window of [CHUNK_SIZE] words and the second starts one stride
    later. *)
Theorem consecutive_chunks_overlap (cfg : Config) (txt doc_id fname : str) :
  0 <= CHUNK_OVERLAP cfg ->
  2 * CHUNK_OVERLAP cfg <= CHUNK_SIZE cfg ->
  26 <= CHUNK_SIZE cfg ->
  exists chunks,
    _chunk_text cfg txt doc_id fname = Ok chunks
    /\ forall k a b,
         nth_error chunks k = Some a ->
         nth_error chunks (S k) = Some b ->
         (S (S k) < length chunks)%nat ->
         span_overlap a b = CHUNK_OVERLAP cfg
         /\ word_count a = CHUNK_SIZE cfg
         /\ start_word_index b
            = start_word_index a + (CHUNK_SIZE cfg - CHUNK_OVERLAP cfg).
Proof.
  intros HO Hhalf HW.
  set (W := CHUNK_SIZE cfg) in *. set (O := CHUNK_OVERLAP cfg) in *.
  assert (HS : 0 < W - O) by lia.
  eexists. split; [apply _chunk_text_spec; fold W O; lia|].
  fold W O. set (n := len (split txt)).
  set (R := range_list 0 n (W - O)).
  intros k a b Ha Hb Hlen.
  destruct (nth_error_three _ k a b Ha Hb Hlen) as (l1 & c & l2 & E).
  apply map_eq_app in E. destruct E as (F1 & F2 & EF & _ & E2).
  apply map_eq_cons in E2. destruct E2 as (i & F3 & -> & <- & E3).
  apply map_eq_cons in E3. destruct E3 as (j & F4 & -> & <- & E4).
  apply map_eq_cons in E4. destruct E4 as (j' & F5 & -> & _ & _).
  destruct (filter_neighbours _ _ _ _ _ _ EF)
    as (xs1 & mid & xs2 & ER & Hmid & Hxs2).
  assert (Hj'2 : In j' xs2).
  { assert (In j' (filter (keeps cfg (split txt)) xs2))
      by (rewrite Hxs2; now left).
    now apply filter_In in H. }
  pose proof (range_list_sorted n (W - O) HS) as Hsort. fold R in Hsort.
  assert (Hin : forall x, In x R <-> 0 <= x < n /\ (W - O | x))
    by (intros x; apply range_list_In; exact HS).
  assert (Hi : In i R) by (rewrite ER; apply in_elt).
  assert (Hj : In j R).
  { rewrite ER. apply in_or_app. right. right. apply in_elt. }
  assert (Hj' : In j' R).
  { rewrite ER. apply in_or_app. right. right.
    apply in_or_app. right. now right. }
  (* the order of the three start indices *)
  assert (Hij : i < j).
  { rewrite ER in Hsort. apply sorted_app_inv in Hsort.
    destruct Hsort as [_ Hafter]. rewrite Forall_forall in Hafter.
    apply Hafter. apply in_elt. }
  assert (Hjj' : j < j').
  { rewrite ER in Hsort.
    change (xs1 ++ i :: mid ++ j :: xs2)
      with (xs1 ++ (i :: mid) ++ j :: xs2) in Hsort.
    rewrite app_assoc in Hsort. apply sorted_app_inv in Hsort.
    destruct Hsort as [_ Hafter]. rewrite Forall_forall in Hafter.
    now apply Hafter. }
  apply Hin in Hi, Hj, Hj'.
  destruct Hi as [Hi [qi Ei]], Hj as [Hj [qj Ej]], Hj' as [Hj' [qj' Ej']].
  assert (Hq : qi < qj) by (apply Z.mul_lt_mono_pos_r with (W - O); lia).
  assert (Hq' : qj < qj') by (apply Z.mul_lt_mono_pos_r with (W - O); lia).
  assert (Hprev : i <= j - (W - O)).
  { rewrite Ei, Ej. rewrite <- (Z.mul_1_l (W - O)) at 3.
    rewrite <- Z.mul_sub_distr_r. apply Z.mul_le_mono_nonneg_r; lia. }
  assert (Hnext : j + (W - O) <= j').
  { rewrite Ej, Ej'. rewrite <- (Z.mul_1_l (W - O)) at 2.
    rewrite <- Z.mul_add_distr_r. apply Z.mul_le_mono_nonneg_r; lia. }
  (* the window one stride before [j] is full, hence kept *)
  assert (Hkeep : keeps cfg (split txt) (j - (W - O)) = true).
  { apply keeps_long_window; fold W n; lia. }
  assert (Hmem : In (j - (W - O)) R).
  { apply Hin. split; [lia|]. exists (qj - 1). lia. }
  assert (Ei' : i = j - (W - O)).
  { rewrite ER in Hmem. apply in_app_or in Hmem.
    destruct Hmem as [Hmem|[Hmem|Hmem]].
    - rewrite ER in Hsort. apply sorted_app_inv in Hsort.
      destruct Hsort as [Hbefore _]. rewrite Forall_forall in Hbefore.
      specialize (Hbefore _ Hmem). lia.
    - exact Hmem.
    - apply in_app_or in Hmem. destruct Hmem as [Hmem|[Hmem|Hmem]].
      + rewrite Forall_forall in Hmid. specialize (Hmid _ Hmem).
        congruence.
      + lia.
      + rewrite ER in Hsort.
        change (xs1 ++ i :: mid ++ j :: xs2)
          with (xs1 ++ (i :: mid) ++ j :: xs2) in Hsort.
        rewrite app_assoc in Hsort. apply sorted_app_inv in Hsort.
        destruct Hsort as [_ Hafter]. rewrite Forall_forall in Hafter.
        specialize (Hafter _ Hmem). lia. }
  unfold span_overlap. simpl. fold W n.
  rewrite len_chunk_words by (fold W; lia). fold W n.
  repeat split; lia.
Qed.

Lemma consecutive_chunks_overlap_witness :
  exists chunks a b,
    _chunk_text default_config (sample_text 2500) (lit "doc") (lit "f.txt")
    = Ok chunks
    /\ nth_error chunks 0 = Some a
    /\ nth_error chunks 1 = Some b
    /\ (2 < length chunks)%nat
    /\ span_overlap a b = CHUNK_OVERLAP default_config
    /\ word_count a = CHUNK_SIZE default_config
    /\ start_word_index b = start_word_index a + 800.
Proof.
  destruct (consecutive_chunks_overlap default_config (sample_text 2500)
              (lit "doc") (lit "f.txt"))
    as [chunks [E H]]; [simpl; lia | simpl; lia | simpl; lia |].
  exists chunks.
  destruct chunks as [|a [|b [|c rest]]];
    try (vm_compute in E; discriminate).
  exists a, b. split; [exact E|].
  split; [reflexivity|]. split; [reflexivity|].
  split; [simpl; lia|].
  apply (H 0%nat a b); [reflexivity|reflexivity|simpl; lia].
Defined.

(** C3, as stated, fails.  With a window of 10 words and an overlap of
    8 (stride 2), a text of nine 10-letter words gives the three chunks
    [[0,9)], [[2,9)], [[4,9)]: the first two are
    consecutive, the second is not the final chunk, and they share seven
    words, not eight. *)
Lemma overlap_not_exact :
  let cfg := {| CHUNK_SIZE := 10; CHUNK_OVERLAP := 8 |} in
  let txt := repeat_word (lit "abcdefghij") 9 in
  exists chunks a b,
    _chunk_text cfg txt (lit "doc") (lit "f.txt") = Ok chunks
    /\ map span chunks = [(0, 9); (2, 9); (4, 9)]
    /\ nth_error chunks 0 = Some a
    /\ nth_error chunks 1 = Some b
    /\ (2 < length chunks)%nat
    /\ span_overlap a b = 7
    /\ span_overlap a b <> CHUNK_OVERLAP cfg.
Proof.
  intros cfg txt.
  eexists. eexists. eexists.
  split; [vm_compute; reflexivity|].
  split; [vm_compute; reflexivity|].
  split; [reflexivity|]. split; [reflexivity|].
  split; [simpl; lia|].
  split; [vm_compute; reflexivity|vm_compute; discriminate].
Qed.

(** A second way in which consecutive chunks can miss the overlap: a short
    window between two long ones is dropped, and its neighbours, now
    consecutive in the output, share no word at all. *)
Example overlap_lost_to_dropped_window :
  let cfg := {| CHUNK_SIZE := 4; CHUNK_OVERLAP := 1 |} in
  let long := lit "abcdefghijklmnopqrstuvwxyz" in
  let txt := join (lit " ")
               ([long; long; long] ++ repeat (lit "a") 4
                ++ [long; long; long; long; long; long]) in
  exists chunks,
    _chunk_text cfg txt (lit "doc") (lit "f.txt") = Ok chunks
    /\ map span chunks = [(0, 4); (6, 10); (9, 13)].
Proof.
  intros cfg long txt. eexists.
  split; vm_compute; reflexivity.
Qed.

(** C4 (defect of the code).  Under the default configuration the
    2500-word text of one-letter words gives four chunks whose recorded
    [chunk_index] values are 0, 0, 1, 2 rather than 0, 1, 2, 3: the index
    is [start // CHUNK_SIZE], not the position in the output.  The first
    two chunks therefore carry the same identifier [doc_chunk_0]. *)
Theorem chunk_index_collides :
  exists chunks,
    _chunk_text default_config (sample_text 2500) (lit "doc") (lit "f.txt")
    = Ok chunks
    /\ map start_word_index chunks = [0; 800; 1600; 2400]
    /\ map chunk_index chunks = [0; 0; 1; 2]
    /\ map chunk_id chunks
       = [lit "doc_chunk_0"; lit "doc_chunk_0";
          lit "doc_chunk_1"; lit "doc_chunk_2"]
    /\ ~ NoDup (map chunk_id chunks).
Proof.
  eexists. split; [vm_compute; reflexivity|].
  split; [vm_compute; reflexivity|].
  split; [vm_compute; reflexivity|].
  split; [vm_compute; reflexivity|].
  intros Hnd. vm_compute in Hnd.
  apply NoDup_cons_iff in Hnd. destruct Hnd as [Hnotin _].
  apply Hnotin. now left.
Qed.

(** The collision does not depend on the words: under the default
    configuration every text of at least 826 words has a first and a
    second chunk with the same index 0 and the same identifier. *)
Lemma chunk_index_collides_always (txt doc_id fname : str) :
  826 <= len (split txt) ->
  exists chunks a b rest,
    _chunk_text default_config txt doc_id fname = Ok chunks
    /\ chunks = a :: b :: rest
    /\ start_word_index a = 0 /\ start_word_index b = 800
    /\ chunk_index a = 0 /\ chunk_index b = 0
    /\ chunk_id a = chunk_id b.
Proof.
  intros Hn.
  rewrite _chunk_text_spec by (simpl; lia).
  unfold range_list, range_len. simpl CHUNK_SIZE. simpl CHUNK_OVERLAP.
  change (0 <? 1000 - 200) with true. cbv iota.
  destruct (Z.ltb_spec 0 (len (split txt))) as [_|]; [|lia].
  assert (Hq : 1 <= (len (split txt) - 0 - 1) / (1000 - 200))
    by (apply Z.div_le_lower_bound; lia).
  destruct (Z.to_nat ((len (split txt) - 0 - 1) / (1000 - 200) + 1))
    as [|[|m]] eqn:Ec; try lia.
  cbn [seq map filter].
  rewrite !keeps_long_window by (simpl; lia).
  cbn [map].
  do 4 eexists. split; [reflexivity|]. split; [reflexivity|].
  repeat split.
Qed.

(* ------------------------------------------------------------------ *)
(** ** Properties of [validate_file], [validate_query], [process_query] *)

Lemma str_eqb_eq (a b : str) : str_eqb a b = true <-> a = b.
Proof.
  unfold str_eqb. destruct (list_eq_dec N.eq_dec a b); split;
    congruence.
Qed.

Lemma str_in_In (x : str) (l : list str) : str_in x l = true <-> In x l.
Proof.
  unfold str_in. rewrite existsb_exists. split.
  - intros [y [Hy E]]. apply str_eqb_eq in E. now subst.
  - intros H. exists x. split; [assumption|now apply str_eqb_eq].
Qed.

(** C9 (confirmed).  [validate_file] answers [True] exactly when the
    lower-cased extension of the file name is one of [.pdf], [.docx],
    [.txt] and the size is at most 52428800 bytes, and [False] in every
    other case. *)
Theorem validate_file_iff (lower : str -> str) (fname : str) (file_size : Z) :
  (validate_file lower fname file_size = true
   <-> In (lower (snd (splitext fname))) [lit ".pdf"; lit ".docx"; lit ".txt"]
       /\ file_size <= 52428800)
  /\ (validate_file lower fname file_size = false
      <-> ~ (In (lower (snd (splitext fname)))
                [lit ".pdf"; lit ".docx"; lit ".txt"]
             /\ file_size <= 52428800)).
Proof.
  unfold validate_file.
  change [lit ".pdf"; lit ".docx"; lit ".txt"] with supported_extensions.
  change (50 * 1024 * 1024) with 52428800.
  pose proof (str_in_In (lower (snd (splitext fname))) supported_extensions)
    as Hin.
  destruct (str_in (lower (snd (splitext fname))) supported_extensions);
    simpl.
  - assert (Hyes : In (lower (snd (splitext fname))) supported_extensions)
      by now apply Hin.
    destruct (Z.gtb_spec file_size 52428800) as [Hgt|Hle].
    + split; split.
      * discriminate.
      * intros [_ H]. lia.
      * intros _ [_ H]. lia.
      * reflexivity.
    + split; split.
      * intros _. now split.
      * reflexivity.
      * discriminate.
      * intros H. exfalso. apply H. now split.
  - assert (Hno : ~ In (lower (snd (splitext fname))) supported_extensions).
    { intros H. apply Hin in H. discriminate. }
    split; split.
    + discriminate.
    + intros [H _]. contradiction.
    + intros _ [H _]. contradiction.
    + reflexivity.
Qed.

Example validate_file_samples :
  validate_file ascii_lower (lit "Report.PDF") 52428800 = true
  /\ validate_file ascii_lower (lit "notes.txt") 52428801 = false
  /\ validate_file ascii_lower (lit "archive.tar.gz") 10 = false
  /\ validate_file ascii_lower (lit ".txt") 10 = false.
Proof. repeat split; vm_compute; reflexivity. Qed.

(** The test that opens [process_query]. *)
Lemma too_short_test (query : str) :
  match query with [] => true | _ => false end || (len (strip query) <? 3)
  = true
  <-> query = [] \/ len (strip query) < 3.
Proof.
  rewrite orb_true_iff, Z.ltb_lt.
  destruct query; split; intros [H|H]; auto; discriminate.
Qed.

(** C6 (confirmed).  For a query that is empty or whose trimmed length is
    below 3, [process_query] returns the failure
    ['Query must be at least 3 characters long'] and leaves the world as
    it was: no search, no generation call, not even a log line; and
    [validate_query] marks the query invalid. *)
Theorem short_query_rejected
  (distance : str -> Entry -> Q) (rank : str -> list Entry -> list Entry)
  (llm lower : str -> str) (query : str) (n_results : Z) (w : World) :
  query = [] \/ len (strip query) < 3 ->
  (exists r,
      process_query distance rank llm query n_results w = (Ok r, w)
      /\ success r = false
      /\ r = QueryFailure (lit "Query must be at least 3 characters long"))
  /\ valid (validate_query lower query) = false.
Proof.
  intros Hshort. split.
  - apply too_short_test in Hshort.
    eexists. unfold process_query, try_except. rewrite Hshort.
    unfold ret. repeat split.
  - unfold validate_query.
    destruct (match query with [] => true | _ => false end
              || match strip query with [] => true | _ => false end);
      [reflexivity|].
    destruct Hshort as [->|Hlt].
    + reflexivity.
    + apply Z.ltb_lt in Hlt. now rewrite Hlt.
Qed.

Lemma short_query_rejected_witness :
  (exists r,
      process_query sample_distance sample_rank sample_llm (lit " hi ") 5
        (sample_world [])
      = (Ok r, sample_world [])
      /\ success r = false
      /\ r = QueryFailure (lit "Query must be at least 3 characters long"))
  /\ valid (validate_query ascii_lower (lit " hi ")) = false.
Proof.
  apply (short_query_rejected sample_distance sample_rank sample_llm
           ascii_lower (lit " hi ") 5 (sample_world [])).
  right. vm_compute. reflexivity.
Defined.

(* ------------------------------------------------------------------ *)
(** ** Failures of the external services *)

(** Reading a well-formed answer of the store never fails. *)
Lemma index_head {A} (x : A) (l : list A) : index (x :: l) 0 = Ok x.
Proof. reflexivity. Qed.

Lemma index_map_nth {A B} (f : A -> B) (l : list A) (k : nat) (x : A) :
  nth_error l k = Some x ->
  index (map f l) (0 + Z.of_nat k * 1) = Ok (f x).
Proof.
  intros H. unfold index.
  replace (0 + Z.of_nat k * 1) with (Z.of_nat k) by lia.
  destruct (Z.ltb_spec (Z.of_nat k) 0); [lia|].
  destruct (Z.ltb_spec (Z.of_nat k) 0); [lia|].
  rewrite Nat2Z.id, nth_error_map, H. reflexivity.
Qed.

Lemma for_each_seq {A B} (f : Z -> result B) (h : A -> B) (l : list A)
  (s : nat) :
  (forall k x, nth_error l k = Some x ->
               f (0 + Z.of_nat (s + k) * 1) = Ok (h x)) ->
  for_each f (map (fun k => 0 + Z.of_nat k * 1) (seq s (length l)))
  = Ok (map h l).
Proof.
  revert s. induction l as [|a l IH]; intros s H;
    cbn [for_each map seq length]; [reflexivity|].
  pose proof (H 0%nat a eq_refl) as H0. rewrite Nat.add_0_r in H0.
  rewrite H0. cbn [bind].
  rewrite IH; [reflexivity|].
  intros k x Hk. replace (S s + k)%nat with (s + S k)%nat by lia.
  now apply (H (S k)).
Qed.

Lemma range_list_unit (m : nat) :
  range_list 0 (Z.of_nat m) 1 = map (fun k => 0 + Z.of_nat k * 1) (seq 0 m).
Proof.
  unfold range_list. f_equal. f_equal. unfold range_len.
  change (0 <? 1) with true. cbv iota.
  destruct (Z.ltb_spec 0 (Z.of_nat m)).
  - rewrite Z.sub_0_r, Z.div_1_r. lia.
  - lia.
Qed.

Lemma format_results_answer (distance : str -> Entry -> Q) (q : str)
  (found : list Entry) :
  format_results
    {| ids := [map entry_id found];
       documents := [map entry_document found];
       metadatas := [map entry_metadata found];
       distances := Some [map (distance q) found] |}
  = Ok (map (hit_of distance q) found).
Proof.
  unfold format_results. cbn [documents metadatas distances].
  rewrite index_head. cbn [bind].
  unfold len. rewrite length_map, range_list_unit.
  apply for_each_seq. intros k x Hk. simpl Nat.add.
  rewrite (index_map_nth entry_document found k x Hk). cbn [bind].
  rewrite index_head. cbn [bind].
  rewrite (index_map_nth entry_metadata found k x Hk). cbn [bind].
  rewrite index_head. cbn [bind].
  rewrite (index_map_nth (distance q) found k x Hk). reflexivity.
Qed.

Lemma filter_matches_none (col : list Entry) :
  filter (matches None) col = col.
Proof.
  induction col as [|e col IH]; simpl; [reflexivity|]. now rewrite IH.
Qed.

Lemma not_too_short_test (query : str) :
  query <> [] -> 3 <= len (strip query) ->
  match query with [] => true | _ => false end || (len (strip query) <? 3)
  = false.
Proof.
  intros Hne Hlen. destruct query; [congruence|]. simpl orb.
  apply Z.ltb_ge. assumption.
Qed.

(** C8, as amended.  For a query that passes the length test:
    - when the search call raises [e], [process_query] makes that one
      call and no other, logs the error, and returns the failure
      ['No relevant documents found for your query'], which does not
      carry [e];
    - when the search goes through with at least one hit and the
      generation call raises [e], [process_query] makes each call once
      and returns a success whose response is the text
      ['An error occurred while generating the response: ' + str(e)]. *)
Theorem upstream_failures_absorbed
  (distance : str -> Entry -> Q) (rank : str -> list Entry -> list Entry)
  (llm : str -> str) (query : str) (n_results : Z) (w : World)
  (e : exn) (rest : list (option exn)) :
  query <> [] -> 3 <= len (strip query) ->
  (faults w = Some e :: rest ->
   process_query distance rank llm query n_results w
   = (Ok (QueryFailure (lit "No relevant documents found for your query")),
      {| collection := collection w;
         faults := rest;
         trace := trace w ++
           [LogInfo (lit "Searching for relevant chunks for query: " ++ query);
            CollectionQuery query n_results None;
            LogError (lit "Error searching ChromaDB: " ++ exn_str e)] |}))
  /\ (faults w = None :: Some e :: rest ->
      forall hits,
        hits = map (hit_of distance query)
                   (firstn (Z.to_nat n_results) (rank query (collection w))) ->
        hits <> [] ->
        process_query distance rank llm query n_results w
        = (Ok (QuerySuccess query
                 (lit "An error occurred while generating the response: "
                  ++ exn_str e)
                 (map source_of hits) (len hits)),
           {| collection := collection w;
              faults := rest;
              trace := trace w ++
                [LogInfo (lit "Searching for relevant chunks for query: "
                          ++ query);
                 CollectionQuery query n_results None;
                 LogInfo (lit "Generating response using Gemini LLM");
                 GenerateContent (prompt_for query hits);
                 LogError (lit "Error generating response: " ++ exn_str e);
                 LogInfo (lit "Successfully processed query. Found "
                          ++ str_of_int (len hits)
                          ++ lit " relevant sources.")] |})).
Proof.
  intros Hne Hlen. split.
  - intros Hf. unfold process_query.
    rewrite (not_too_short_test query Hne Hlen).
    run_effects. rewrite Hf. run_effects.
    rewrite <- !app_assoc. reflexivity.
  - intros Hf hits Ehits Hhits. unfold process_query.
    rewrite (not_too_short_test query Hne Hlen).
    run_effects. rewrite Hf. run_effects.
    rewrite filter_matches_none, format_results_answer, <- Ehits.
    destruct hits as [|h hits']; [congruence|].
    run_effects.
    rewrite <- !app_assoc. reflexivity.
Qed.

Lemma upstream_failures_absorbed_witness :
  process_query sample_distance sample_rank sample_llm
    (lit "what is rust") 5 (sample_world [Some sample_error])
  = (Ok (QueryFailure (lit "No relevant documents found for your query")),
     {| collection := [sample_entry (lit "doc") 0];
        faults := [];
        trace :=
          [LogInfo (lit "Searching for relevant chunks for query: what is rust");
           CollectionQuery (lit "what is rust") 5 None;
           LogError (lit "Error searching ChromaDB: connection refused")] |})
  /\ exists sources tr,
       process_query sample_distance sample_rank sample_llm
         (lit "what is rust") 5 (sample_world [None; Some sample_error])
       = (Ok (QuerySuccess (lit "what is rust")
                (lit "An error occurred while generating the response: connection refused")
                sources 1),
          {| collection := [sample_entry (lit "doc") 0];
             faults := [];
             trace := tr |}).
Proof.
  split.
  - apply (proj1 (upstream_failures_absorbed sample_distance sample_rank
                    sample_llm (lit "what is rust") 5
                    (sample_world [Some sample_error]) sample_error []
                    ltac:(discriminate) ltac:(vm_compute; congruence))).
    reflexivity.
  - eexists. eexists.
    apply (proj2 (upstream_failures_absorbed sample_distance sample_rank
                    sample_llm (lit "what is rust") 5
                    (sample_world [None; Some sample_error]) sample_error []
                    ltac:(discriminate) ltac:(vm_compute; congruence))
             eq_refl _ eq_refl).
    discriminate.
Defined.

(** C8, as stated, fails.  A search call that raises is answered with
    ['No relevant documents found for your query'], the very result of a
    search that goes through on an empty store, and the text of the
    exception is not in it; a generation call that raises ends in a
    success. *)
Lemma search_failure_not_surfaced :
  let failing := sample_world [Some sample_error] in
  let empty := {| collection := []; faults := []; trace := [] |} in
  let run := process_query sample_distance sample_rank sample_llm
               (lit "what is rust") 5 in
  fst (run failing)
  = Ok (QueryFailure (lit "No relevant documents found for your query"))
  /\ fst (run failing) = fst (run empty)
  /\ contains (exn_str sample_error)
       (lit "No relevant documents found for your query") = false
  /\ exists r,
       fst (run (sample_world [None; Some sample_error])) = Ok r
       /\ success r = true.
Proof.
  intros failing empty run.
  split; [vm_compute; reflexivity|].
  split; [vm_compute; reflexivity|].
  split; [vm_compute; reflexivity|].
  eexists. split; vm_compute; reflexivity.
Qed.

(* ------------------------------------------------------------------ *)
(** ** Deleting the chunks of a document *)

Section Delete.

Variable distance : str -> Entry -> Q.
Variable rank : str -> list Entry -> list Entry.
Variable doc : str.
Variable w : World.

(** When neither call fails, [delete_document_chunks] deletes the
    identifiers the query returned, and nothing else. *)
Lemma delete_document_chunks_run :
  faults w = [] ->
  delete_document_chunks distance rank doc w
  = (Ok tt,
     {| collection :=
          filter (fun e => negb (str_in (entry_id e)
                                   (map entry_id (found_for_delete rank doc w))))
                 (collection w);
        faults := [];
        trace := trace w ++
          [CollectionQuery [] 1000 (Some doc);
           CollectionDelete (map entry_id (found_for_delete rank doc w));
           LogInfo (lit "Deleted "
                    ++ str_of_int (len (map entry_id (found_for_delete rank doc w)))
                    ++ lit " chunks for document " ++ doc)] |}).
Proof.
  intros Hf. run_effects. rewrite Hf. run_effects.
  cbn [ids]. rewrite index_head. run_effects.
  rewrite <- !app_assoc. reflexivity.
Qed.

(** Filtering a store keeps its identifiers distinct. *)
Lemma matching_ids_NoDup (where_doc : option str) (col : list Entry) :
  NoDup (map entry_id col) ->
  NoDup (map entry_id (filter (matches where_doc) col)).
Proof.
  intros Hnd. induction col as [|e col IH]; [constructor|].
  cbn [map] in Hnd. apply NoDup_cons_iff in Hnd.
  destruct Hnd as [Hfresh Hnd]. specialize (IH Hnd).
  cbn [filter]. destruct (matches where_doc e); [|exact IH].
  cbn [map]. constructor; [|exact IH].
  intros Hin. apply Hfresh.
  apply in_map_iff in Hin. destruct Hin as [e' [Eid He']].
  apply filter_In in He'. rewrite <- Eid. apply in_map. tauto.
Qed.

(** With more than 1000 chunks of the document in the store, at least
    one of them is still there after [delete_document_chunks]. *)
Lemma delete_leaves_excess :
  faults w = [] ->
  NoDup (map entry_id (collection w)) ->
  (1000 < length (filter (matches (Some doc)) (collection w)))%nat ->
  exists e,
    In e (collection (snd (delete_document_chunks distance rank doc w)))
    /\ md_document_id (entry_metadata e) = doc.
Proof.
  intros Hf Hnd Hmany. rewrite delete_document_chunks_run by assumption.
  cbn [snd collection].
  set (M := filter (matches (Some doc)) (collection w)) in *.
  set (D := map entry_id (found_for_delete rank doc w)).
  assert (HD : (length D <= 1000)%nat).
  { unfold D, found_for_delete. rewrite length_map.
    etransitivity; [apply firstn_le_length|]. reflexivity. }
  destruct (Forall_Exists_dec (fun e => In (entry_id e) D)
              (fun e => in_dec (list_eq_dec N.eq_dec) (entry_id e) D) M)
    as [Hall|Hex].
  - exfalso.
    assert (Hincl : incl (map entry_id M) D).
    { intros x Hx. apply in_map_iff in Hx. destruct Hx as [e [<- He]].
      rewrite Forall_forall in Hall. now apply Hall. }
    pose proof (NoDup_incl_length
                  (matching_ids_NoDup (Some doc) _ Hnd) Hincl) as Hle.
    fold M in Hle. rewrite length_map in Hle. lia.
  - apply Exists_exists in Hex. destruct Hex as [e [HeM Hnot]].
    unfold M in HeM. apply filter_In in HeM. destruct HeM as [Hcol Hm].
    exists e. split.
    + apply filter_In. split; [assumption|].
      apply negb_true_iff. destruct (str_in (entry_id e) D) eqn:Es;
        [|reflexivity].
      apply str_in_In in Es. contradiction.
    + simpl in Hm. now apply str_eqb_eq.
Qed.

(** Up to 1000 chunks of the document, a store that answers the query
    with all the matching entries, in whatever order, loses every one
    of them. *)
Lemma delete_removes_all_below_cap :
  faults w = [] ->
  Permutation (rank [] (filter (matches (Some doc)) (collection w)))
              (filter (matches (Some doc)) (collection w)) ->
  (length (filter (matches (Some doc)) (collection w)) <= 1000)%nat ->
  forall e,
    In e (collection (snd (delete_document_chunks distance rank doc w))) ->
    md_document_id (entry_metadata e) <> doc.
Proof.
  intros Hf Hperm Hfew e He Hdoc.
  rewrite delete_document_chunks_run in He by assumption.
  cbn [snd collection] in He.
  apply filter_In in He. destruct He as [Hcol Hnot].
  apply negb_true_iff in Hnot.
  assert (Hin : In (entry_id e) (map entry_id (found_for_delete rank doc w))).
  { apply in_map. unfold found_for_delete.
    rewrite firstn_all2
      by (rewrite (Permutation_length Hperm);
          change (Z.to_nat 1000) with 1000%nat; lia).
    apply (Permutation_in _ (Permutation_sym Hperm)).
    apply filter_In. split; [assumption|]. simpl. now apply str_eqb_eq. }
  apply str_in_In in Hin. congruence.
Qed.

End Delete.

(** C7 (defect of the code).  On a store with 1001 chunks of one document
    and no failing call, [delete_document_chunks] returns normally and
    leaves the chunk [doc_chunk_1000] of that document in the store: the
    query that collects the identifiers asks for 1000 results only. *)
Theorem delete_leaves_chunks_behind :
  let w := {| collection := crowded_store; faults := []; trace := [] |} in
  let out := delete_document_chunks sample_distance sample_rank (lit "doc") w in
  length (filter (matches (Some (lit "doc"))) (collection w)) = 1001%nat
  /\ fst out = Ok tt
  /\ collection (snd out) = [sample_entry (lit "doc") 1000]
  /\ filter (matches (Some (lit "doc"))) (collection (snd out)) <> [].
Proof.
  intros w out.
  split; [vm_compute; reflexivity|].
  split; [vm_compute; reflexivity|].
  split; [vm_compute; reflexivity|].
  vm_compute. discriminate.
Qed.

(* ------------------------------------------------------------------ *)
(** ** Further properties of [_chunk_text] *)

(** X1.  [_chunk_text] raises exactly when [CHUNK_OVERLAP] equals
    [CHUNK_SIZE], and what it raises then is the [ValueError] of
    [range]; for every other configuration it returns a list. *)
Theorem chunking_raises_iff_zero_stride (cfg : Config) (txt doc_id fname : str) :
  ((exists e, _chunk_text cfg txt doc_id fname = Raise e)
   <-> CHUNK_SIZE cfg = CHUNK_OVERLAP cfg)
  /\ (forall e, _chunk_text cfg txt doc_id fname = Raise e ->
                e = ValueError (lit "range() arg 3 must not be zero"))
  /\ (CHUNK_SIZE cfg <> CHUNK_OVERLAP cfg ->
      exists chunks, _chunk_text cfg txt doc_id fname = Ok chunks).
Proof.
  destruct (Z.eq_dec (CHUNK_SIZE cfg) (CHUNK_OVERLAP cfg)) as [E|NE].
  - pose proof (_chunk_text_zero_stride cfg txt doc_id fname E) as Hr.
    split; [|split].
    + split; [intros _; exact E|intros _; eexists; exact Hr].
    + intros e He. rewrite Hr in He. now injection He as <-.
    + intros NE. contradiction.
  - pose proof (_chunk_text_spec cfg txt doc_id fname ltac:(lia)) as Hr.
    split; [|split].
    + split; [intros [e He]; rewrite Hr in He; discriminate|contradiction].
    + intros e He. rewrite Hr in He. discriminate.
    + intros _. eexists. exact Hr.
Qed.

(** X2.  With an overlap larger than the window the stride is negative,
    the range is empty and every text gives the empty list. *)
Theorem overlap_above_size_gives_nothing (cfg : Config) (txt doc_id fname : str) :
  CHUNK_SIZE cfg < CHUNK_OVERLAP cfg ->
  _chunk_text cfg txt doc_id fname = Ok [].
Proof.
  intros H. rewrite _chunk_text_spec by lia.
  rewrite range_list_negative_step by (try apply len_nonneg; lia).
  reflexivity.
Qed.

Lemma overlap_above_size_gives_nothing_witness :
  _chunk_text {| CHUNK_SIZE := 100; CHUNK_OVERLAP := 150 |}
    (sample_text 400) (lit "doc") (lit "f.txt") = Ok [].
Proof.
  apply overlap_above_size_gives_nothing. simpl. lia.
Defined.

Lemma split_from_blank (s : str) :
  Forall (fun c => is_space c = true) s -> split_from [] s = [].
Proof.
  induction 1 as [|c s Hc _ IH]; simpl; [reflexivity|]. now rewrite Hc.
Qed.

(** X3.  A text made of white space only (the empty text included) has
    no words and gives no chunk, whatever the non-zero stride. *)
Theorem blank_text_gives_nothing (cfg : Config) (txt doc_id fname : str) :
  Forall (fun c => is_space c = true) txt ->
  CHUNK_SIZE cfg <> CHUNK_OVERLAP cfg ->
  split txt = [] /\ _chunk_text cfg txt doc_id fname = Ok [].
Proof.
  intros Hblank Hs.
  assert (E : split txt = []) by now apply split_from_blank.
  split; [exact E|].
  rewrite _chunk_text_spec by lia. rewrite E.
  change (len (@nil str)) with 0. now rewrite range_list_empty.
Qed.

Lemma blank_text_gives_nothing_witness :
  split (lit "  ") = []
  /\ _chunk_text default_config (lit "  ") (lit "doc") (lit "f.txt") = Ok [].
Proof.
  apply blank_text_gives_nothing.
  - repeat constructor.
  - simpl. lia.
Defined.

(** Reading a word, then something else, is reading on with the word
    added to the current run. *)
Lemma split_from_word (w cur rest : str) :
  Forall (fun c => is_space c = false) w ->
  split_from cur (w ++ rest) = split_from (cur ++ w) rest.
Proof.
  intros Hw. revert cur. induction Hw as [|c w Hc _ IH]; intros cur; simpl.
  - now rewrite app_nil_r.
  - rewrite Hc, IH, <- app_assoc. reflexivity.
Qed.

(** Splitting what was joined with single spaces gives the words back. *)
Lemma split_join_words (ws : list str) :
  Forall is_word ws -> split (join (lit " ") ws) = ws.
Proof.
  unfold split. induction 1 as [|w ws [Hne Hw] Hws IH]; [reflexivity|].
  destruct ws as [|w' ws].
  - simpl join. rewrite <- (app_nil_r w) at 1.
    rewrite split_from_word by assumption.
    simpl. destruct w; [congruence|reflexivity].
  - change (join (lit " ") (w :: w' :: ws))
      with (w ++ 32%N :: join (lit " ") (w' :: ws)).
    rewrite split_from_word by assumption. simpl app.
    cbn [split_from]. change (is_space 32%N) with true. cbv iota.
    destruct w; [congruence|]. now rewrite IH.
Qed.

Lemma slice_clamped_end {A} (l : list A) (a b : Z) :
  0 <= b -> slice l a (Z.min b (len l)) = slice l a b.
Proof.
  intros Hb. unfold slice. pose proof (len_nonneg l).
  rewrite (clamp_index_nonneg (len l) (Z.min b (len l))) by lia.
  rewrite (clamp_index_nonneg (len l) b) by lia.
  rewrite <- Z.min_assoc, Z.min_id. reflexivity.
Qed.

(** X4.  For a window size that is not negative, the text of every
    chunk splits back into exactly the words
    [words[start_word_index:end_word_index]] of the document, and
    [word_count] is their number. *)
Theorem chunk_text_round_trip (cfg : Config) (txt doc_id fname : str) :
  0 <= CHUNK_SIZE cfg ->
  CHUNK_SIZE cfg <> CHUNK_OVERLAP cfg ->
  exists chunks,
    _chunk_text cfg txt doc_id fname = Ok chunks
    /\ forall c, In c chunks ->
         split (text c)
         = slice (split txt) (start_word_index c) (end_word_index c)
         /\ len (split (text c)) = word_count c.
Proof.
  intros HW Hs. eexists. split; [apply _chunk_text_spec; lia|].
  intros c Hc. apply chunk_in_output in Hc.
  destruct Hc as (i & -> & _ & Hi). cbn [text start_word_index end_word_index
                                          word_count chunk_at].
  unfold chunk_text.
  rewrite split_join_words by apply chunk_words_are_words.
  split; [|reflexivity].
  unfold chunk_words.
  destruct (Z.lt_trichotomy (CHUNK_SIZE cfg - CHUNK_OVERLAP cfg) 0)
    as [Hneg|[Hz|Hpos]].
  - rewrite range_list_negative_step in Hi
      by (try apply len_nonneg; lia). destruct Hi.
  - lia.
  - apply range_list_In in Hi; [|assumption].
    rewrite slice_clamped_end by lia. reflexivity.
Qed.

Lemma chunk_text_round_trip_witness :
  exists chunks,
    _chunk_text default_config (sample_text 900) (lit "doc") (lit "f.txt")
    = Ok chunks
    /\ forall c, In c chunks ->
         split (text c)
         = slice (split (sample_text 900))
                 (start_word_index c) (end_word_index c)
         /\ len (split (text c)) = word_count c.
Proof.
  apply (chunk_text_round_trip default_config (sample_text 900));
    simpl; lia.
Defined.

Lemma sorted_filter (p : Z -> bool) (l : list Z) :
  StronglySorted Z.lt l -> StronglySorted Z.lt (filter p l).
Proof.
  induction 1 as [|a l Hs IH Ha]; simpl; [constructor|].
  destruct (p a); [|assumption].
  constructor; [assumption|].
  rewrite Forall_forall in *. intros x Hx. apply filter_In in Hx.
  now apply Ha.
Qed.

Lemma chunk_starts (cfg : Config) (words : list str) (doc_id fname : str)
  (l : list Z) :
  map start_word_index (map (chunk_at cfg words doc_id fname) l) = l.
Proof.
  induction l as [|i l IH]; simpl; [reflexivity|]. now rewrite IH.
Qed.

(** X5.  The chunks come out in strictly increasing order of
    [start_word_index]; in particular no two chunks start at the same
    word. *)
Theorem chunk_starts_increase (cfg : Config) (txt doc_id fname : str) :
  CHUNK_SIZE cfg <> CHUNK_OVERLAP cfg ->
  exists chunks,
    _chunk_text cfg txt doc_id fname = Ok chunks
    /\ StronglySorted Z.lt (map start_word_index chunks)
    /\ NoDup (map start_word_index chunks).
Proof.
  intros Hs. eexists. split; [apply _chunk_text_spec; lia|].
  rewrite chunk_starts.
  assert (Hsorted : StronglySorted Z.lt
            (filter (keeps cfg (split txt))
               (range_list 0 (len (split txt))
                  (CHUNK_SIZE cfg - CHUNK_OVERLAP cfg)))).
  { apply sorted_filter.
    destruct (Z.lt_trichotomy (CHUNK_SIZE cfg - CHUNK_OVERLAP cfg) 0)
      as [Hneg|[Hz|Hpos]]; [|lia|now apply range_list_sorted].
    rewrite range_list_negative_step by (try apply len_nonneg; lia).
    constructor. }
  split; [exact Hsorted|].
  induction Hsorted as [|a l _ IH Ha]; constructor; [|exact IH].
  intros Hin. rewrite Forall_forall in Ha. specialize (Ha _ Hin). lia.
Qed.

Lemma chunk_starts_increase_witness :
  exists chunks,
    _chunk_text default_config (sample_text 2500) (lit "doc") (lit "f.txt")
    = Ok chunks
    /\ StronglySorted Z.lt (map start_word_index chunks)
    /\ NoDup (map start_word_index chunks).
Proof.
  apply (chunk_starts_increase default_config (sample_text 2500)).
  simpl. lia.
Defined.

(** X6.  When the overlap is at least 26 words (and below the window
    size) and the text has at least 26 words, no word is lost: every
    word index of the text lies in the span of some chunk. *)
Theorem every_word_is_covered (cfg : Config) (txt doc_id fname : str) :
  26 <= CHUNK_OVERLAP cfg ->
  CHUNK_OVERLAP cfg < CHUNK_SIZE cfg ->
  26 <= len (split txt) ->
  exists chunks,
    _chunk_text cfg txt doc_id fname = Ok chunks
    /\ forall j, 0 <= j < len (split txt) ->
         exists c, In c chunks
                   /\ start_word_index c <= j < end_word_index c.
Proof.
  intros HO HW Hn. eexists. split; [apply _chunk_text_spec; lia|].
  set (W := CHUNK_SIZE cfg) in *. set (O := CHUNK_OVERLAP cfg) in *.
  set (n := len (split txt)) in *.
  intros j Hj.
  assert (HS : 0 < W - O) by lia.
  (* the last window that starts at or before [j] and still has 26 words *)
  set (q := Z.min (j / (W - O)) ((n - 26) / (W - O))).
  assert (Hq0 : 0 <= q).
  { unfold q. apply Z.min_glb; apply Z.div_pos; lia. }
  assert (Hqj : q * (W - O) <= j).
  { transitivity (j / (W - O) * (W - O)).
    - apply Z.mul_le_mono_nonneg_r; [lia|]. unfold q. lia.
    - rewrite Z.mul_comm. apply Z.mul_div_le. lia. }
  assert (Hqn : q * (W - O) <= n - 26).
  { transitivity ((n - 26) / (W - O) * (W - O)).
    - apply Z.mul_le_mono_nonneg_r; [lia|]. unfold q. lia.
    - rewrite Z.mul_comm. apply Z.mul_div_le. lia. }
  assert (Hend : j < q * (W - O) + W).
  { unfold q. clear q Hq0 Hqj Hqn. clearbody n W O.
    destruct (Z.min_spec (j / (W - O)) ((n - 26) / (W - O)))
      as [[_ ->]|[_ ->]].
    - pose proof (Z.mul_succ_div_gt j (W - O) HS) as Hd.
      rewrite Z.mul_succ_r, Z.mul_comm in Hd.
      generalize dependent (j / (W - O) * (W - O)). intros m Hd. lia.
    - pose proof (Z.mul_succ_div_gt (n - 26) (W - O) HS) as Hd.
      rewrite Z.mul_succ_r, Z.mul_comm in Hd.
      generalize dependent ((n - 26) / (W - O) * (W - O)). intros m Hd. lia. }
  assert (Hstart : 0 <= q * (W - O))
    by (apply Z.mul_nonneg_nonneg; lia).
  exists (chunk_at cfg (split txt) doc_id fname (q * (W - O))).
  split.
  - apply in_map. apply filter_In. split.
    + apply range_list_In; [exact HS|]. fold n. split; [lia|].
      exists q. reflexivity.
    + apply keeps_long_window; fold W n; lia.
  - cbn [start_word_index end_word_index chunk_at]. fold W n. lia.
Qed.

Lemma every_word_is_covered_witness :
  exists chunks,
    _chunk_text default_config (sample_text 2401) (lit "doc") (lit "f.txt")
    = Ok chunks
    /\ forall j, 0 <= j < len (split (sample_text 2401)) ->
         exists c, In c chunks
                   /\ start_word_index c <= j < end_word_index c.
Proof.
  apply (every_word_is_covered default_config (sample_text 2401));
    [simpl; lia | simpl; lia | vm_compute; congruence].
Defined.

(** Without overlap a short tail is lost: 1010 one-letter words under a
    window of 1000 give the single chunk [[0,1000)], and the last ten
    words are in no chunk. *)
Example tail_lost_without_overlap :
  exists chunks,
    _chunk_text {| CHUNK_SIZE := 1000; CHUNK_OVERLAP := 0 |}
      (sample_text 1010) (lit "doc") (lit "f.txt") = Ok chunks
    /\ map span chunks = [(0, 1000)].
Proof. eexists. split; vm_compute; reflexivity. Qed.

(** Decimal printing tells integers apart. *)
Lemma lit_inj (a b : string) : lit a = lit b -> a = b.
Proof.
  unfold lit. intros H.
  rewrite <- (string_of_list_ascii_of_string a),
          <- (string_of_list_ascii_of_string b).
  f_equal. revert H.
  generalize (list_ascii_of_string a) as la, (list_ascii_of_string b) as lb.
  induction la as [|x la IH]; intros [|y lb] H; simpl in H;
    try discriminate; [reflexivity|].
  injection H as Hxy Hrest. f_equal; [|now apply IH].
  rewrite <- (ascii_N_embedding x), <- (ascii_N_embedding y). now f_equal.
Qed.

Lemma to_int_not_nil (z : Z) :
  Z.to_int z <> Decimal.Pos Decimal.Nil /\ Z.to_int z <> Decimal.Neg Decimal.Nil.
Proof.
  destruct z as [|p|p]; simpl; split; try discriminate;
    intros H; injection H as H; now apply Unsigned.to_uint_nonnil in H.
Qed.

Lemma str_of_int_inj (a b : Z) : str_of_int a = str_of_int b -> a = b.
Proof.
  unfold str_of_int. intros H. apply lit_inj in H.
  apply (f_equal NilZero.int_of_string) in H.
  destruct (to_int_not_nil a) as [Ha1 Ha2], (to_int_not_nil b) as [Hb1 Hb2].
  rewrite !NilZero.isi in H by assumption.
  injection H as H. apply (f_equal Z.of_int) in H.
  now rewrite !DecimalZ.of_to in H.
Qed.

(** A filter that can only reject the last element keeps a prefix. *)
Lemma filter_prefix {A} (p : A -> bool) (l : list A) :
  (forall k x, nth_error l k = Some x -> (S k < length l)%nat -> p x = true) ->
  exists m, filter p l = firstn m l.
Proof.
  induction l as [|a l IH]; intros H; [now exists 0%nat|].
  destruct l as [|b l].
  - simpl. destruct (p a); [now exists 1%nat|now exists 0%nat].
  - assert (Ha : p a = true) by (apply (H 0%nat); simpl; [reflexivity|lia]).
    destruct IH as [m Hm].
    { intros k x Hk Hlen. apply (H (S k)); simpl in *; [assumption|lia]. }
    exists (S m). cbn [filter]. rewrite Ha. cbn [firstn]. now rewrite <- Hm.
Qed.

Lemma range_list_nth (n step : Z) (k : nat) (i : Z) :
  nth_error (range_list 0 n step) k = Some i -> i = Z.of_nat k * step.
Proof.
  unfold range_list. rewrite nth_error_map, nth_error_seq.
  destruct (k <? _)%nat; simpl; intros H; [|discriminate].
  injection H as <-. lia.
Qed.

(** X7.  Without overlap and with a window of at least 26 words, the
    chunk at position [k] of the output starts at word [k * CHUNK_SIZE],
    records [chunk_index = k] and has the identifier
    [<document_id>_chunk_<k>]; the identifiers of the output are pairwise
    distinct. *)
Theorem chunk_index_is_position_without_overlap
  (cfg : Config) (txt doc_id fname : str) :
  CHUNK_OVERLAP cfg = 0 ->
  26 <= CHUNK_SIZE cfg ->
  exists chunks,
    _chunk_text cfg txt doc_id fname = Ok chunks
    /\ (forall k c, nth_error chunks k = Some c ->
          start_word_index c = Z.of_nat k * CHUNK_SIZE cfg
          /\ chunk_index c = Z.of_nat k
          /\ chunk_id c
             = doc_id ++ lit "_chunk_" ++ str_of_int (Z.of_nat k))
    /\ NoDup (map chunk_id chunks).
Proof.
  intros HO HW. eexists. split; [apply _chunk_text_spec; lia|].
  rewrite HO, Z.sub_0_r.
  set (W := CHUNK_SIZE cfg) in *. set (n := len (split txt)).
  set (R := range_list 0 n W).
  assert (HWpos : 0 < W) by lia.
  destruct (filter_prefix (keeps cfg (split txt)) R) as [m Hm].
  { intros k x Hk Hlen.
    pose proof (range_list_nth _ _ _ _ Hk) as Ex.
    assert (Hnext : exists y, nth_error R (S k) = Some y).
    { destruct (nth_error R (S k)) eqn:E; [now eexists|].
      apply nth_error_None in E. lia. }
    destruct Hnext as [y Hy].
    pose proof (range_list_nth _ _ _ _ Hy) as Ey.
    apply nth_error_In, range_list_In in Hy; [|exact HWpos].
    apply keeps_long_window; fold W n; lia. }
  rewrite Hm.
  assert (Hpos : forall k c,
            nth_error (map (chunk_at cfg (split txt) doc_id fname)
                           (firstn m R)) k = Some c ->
            c = chunk_at cfg (split txt) doc_id fname (Z.of_nat k * W)).
  { intros k c Hk. rewrite nth_error_map, nth_error_firstn in Hk.
    destruct (k <? m)%nat; [|discriminate].
    destruct (nth_error R k) as [i|] eqn:Ei; [|discriminate].
    apply range_list_nth in Ei. simpl in Hk. injection Hk as <-.
    now rewrite Ei. }
  assert (Hidx : forall k : nat, Z.of_nat k * W / W = Z.of_nat k)
    by (intros k; apply Z.div_mul; lia).
  split.
  - intros k c Hk. apply Hpos in Hk. subst c.
    cbn [start_word_index chunk_index chunk_id chunk_at]. fold W.
    rewrite Hidx. repeat split.
  - apply NoDup_nth_error. intros i j Hi E.
    set (out := map (chunk_at cfg (split txt) doc_id fname) (firstn m R)) in *.
    rewrite (nth_error_map chunk_id i out), (nth_error_map chunk_id j out) in E.
    destruct (nth_error out i) as [a|] eqn:Ea.
    + destruct (nth_error out j) as [b|] eqn:Eb; [|discriminate].
      apply Hpos in Ea, Eb. subst a b.
      cbn [option_map chunk_id chunk_at] in E. injection E as E.
      fold W in E. rewrite !Hidx in E.
      apply app_inv_head in E. injection E as E.
      apply str_of_int_inj in E. lia.
    + apply nth_error_None in Ea. rewrite length_map in Hi. lia.
Qed.

Lemma chunk_index_is_position_without_overlap_witness :
  exists chunks,
    _chunk_text {| CHUNK_SIZE := 100; CHUNK_OVERLAP := 0 |}
      (sample_text 250) (lit "doc") (lit "f.txt") = Ok chunks
    /\ (forall k c, nth_error chunks k = Some c ->
          start_word_index c = Z.of_nat k * 100
          /\ chunk_index c = Z.of_nat k
          /\ chunk_id c
             = lit "doc" ++ lit "_chunk_" ++ str_of_int (Z.of_nat k))
    /\ NoDup (map chunk_id chunks).
Proof.
  apply (chunk_index_is_position_without_overlap
           {| CHUNK_SIZE := 100; CHUNK_OVERLAP := 0 |} (sample_text 250));
    simpl; lia.
Defined.

(* ------------------------------------------------------------------ *)
(** ** Further properties of [validate_query] and [process_query] *)

Lemma validate_text_true (lower : str -> str) (q : str) :
  validate_text lower q = true
  <-> 10 <= len (strip q) /\ has_inappropriate_word (lower q) = false.
Proof.
  unfold validate_text, has_inappropriate_word.
  destruct q as [|c q].
  - split; [discriminate|]. intros [H _]. vm_compute in H. now elim H.
  - destruct (Z.ltb_spec (len (strip (c :: q))) 10).
    + split; [discriminate|]. intros [? _]. lia.
    + rewrite negb_true_iff. split; [intros ->; split; [lia|reflexivity]|tauto].
Qed.

Lemma len_zero_nil {A} (l : list A) : len l = 0 -> l = [].
Proof. destruct l; [reflexivity|]. unfold len. simpl. lia. Qed.

(** X8.  [validate_query] accepts a query exactly when its trimmed
    length is between 10 and 1000 and its lower-cased text contains none
    of the words [spam], [malware], [virus]; the length it reports is the
    trimmed length.  (The lower bound is 10, from [validate_text], not
    the 3 of the error message.) *)
Theorem validate_query_accepts_iff (lower : str -> str) (q : str) :
  (valid (validate_query lower q) = true
   <-> 10 <= len (strip q) <= 1000
       /\ has_inappropriate_word (lower q) = false)
  /\ (forall n, validate_query lower q = Valid n -> n = len (strip q)).
Proof.
  unfold validate_query.
  destruct (match q with [] => true | _ => false end
            || match strip q with [] => true | _ => false end) eqn:Hempty.
  - split; [|discriminate].
    split; [discriminate|]. intros [[Hlen _] _]. exfalso.
    apply orb_true_iff in Hempty. destruct Hempty as [He|He].
    + destruct q; [|discriminate]. vm_compute in Hlen. now apply Hlen.
    + destruct (strip q); [|discriminate]. vm_compute in Hlen. now apply Hlen.
  - destruct (Z.ltb_spec (len (strip q)) 3);
      [split; [split; [discriminate|lia]|discriminate]|].
    destruct (Z.gtb_spec (len (strip q)) 1000);
      [split; [split; [discriminate|lia]|discriminate]|].
    pose proof (validate_text_true lower q) as Hvt.
    destruct (validate_text lower q); simpl.
    + split; [|now intros n [= <-]].
      split; [intros _|reflexivity].
      destruct Hvt as [Hvt _]. specialize (Hvt eq_refl). split; [lia|tauto].
    + split; [|discriminate].
      split; [discriminate|]. intros [Hlen Hw].
      destruct Hvt as [_ Hvt]. rewrite Hvt; [reflexivity|]. split; [lia|exact Hw].
Qed.

(** X9.  A query whose trimmed length is between 3 and 9 passes the
    length tests of [validate_query] and is then refused with
    ['Query contains inappropriate content'], whatever its words. *)
Theorem short_valid_query_called_inappropriate (lower : str -> str) (q : str) :
  3 <= len (strip q) < 10 ->
  validate_query lower q
  = Invalid (lit "Query contains inappropriate content").
Proof.
  intros [Hlo Hhi]. unfold validate_query.
  assert (Hq : q <> []) by (intros ->; vm_compute in Hlo; now apply Hlo).
  assert (Hs : strip q <> [])
    by (intros E; rewrite E in Hlo; vm_compute in Hlo; now apply Hlo).
  destruct q as [|c q]; [congruence|].
  destruct (strip (c :: q)) as [|c' s'] eqn:Es; [congruence|].
  cbn [orb].
  destruct (Z.ltb_spec (len (c' :: s')) 3); [lia|].
  destruct (Z.gtb_spec (len (c' :: s')) 1000); [lia|].
  assert (Hvt : validate_text lower (c :: q) = false).
  { unfold validate_text. rewrite Es.
    destruct (Z.ltb_spec (len (c' :: s')) 10); [reflexivity|lia]. }
  now rewrite Hvt.
Qed.

Lemma short_valid_query_called_inappropriate_witness :
  validate_query ascii_lower (lit "why rust")
  = Invalid (lit "Query contains inappropriate content").
Proof.
  apply short_valid_query_called_inappropriate. vm_compute.
  split; congruence.
Defined.

Section QueryOutcome.

Variable distance : str -> Entry -> Q.
Variable rank : str -> list Entry -> list Entry.
Variable llm : str -> str.
Variable query : str.
Variable n_results : Z.
Variable w : World.

Let hits := hits_for distance rank query n_results w.
Let searching :=
  LogInfo (lit "Searching for relevant chunks for query: " ++ query).
Let searched := CollectionQuery query n_results None.
Let no_documents :=
  QueryFailure (lit "No relevant documents found for your query").

(** The generation call is answered: the response is the answer of the
    model, trimmed, or the apology for an empty answer. *)
Ltac answer_goes_through :=
  run_effects;
  match goal with
  | |- context [match llm ?p with _ => _ end] => destruct (llm p)
  end;
  (eexists; exists []; split; [|constructor];
   run_effects; rewrite <- !app_assoc; reflexivity).

(** Every way [process_query] can end. *)
Lemma process_query_outcome :
  process_query distance rank llm query n_results w
  = (Ok (QueryFailure (lit "Query must be at least 3 characters long")), w)
  \/ (exists e,
        process_query distance rank llm query n_results w
        = (Ok no_documents,
           {| collection := collection w;
              faults := tl (faults w);
              trace := trace w ++
                [searching; searched;
                 LogError (lit "Error searching ChromaDB: " ++ exn_str e)] |}))
  \/ (hits = []
      /\ process_query distance rank llm query n_results w
         = (Ok no_documents,
            {| collection := collection w;
               faults := tl (faults w);
               trace := trace w ++ [searching; searched] |}))
  \/ (hits <> []
      /\ exists response logged,
           process_query distance rank llm query n_results w
           = (Ok (QuerySuccess query response (map source_of hits) (len hits)),
              {| collection := collection w;
                 faults := tl (tl (faults w));
                 trace := trace w ++
                   [searching; searched;
                    LogInfo (lit "Generating response using Gemini LLM");
                    GenerateContent (prompt_for query hits)]
                   ++ logged ++
                   [LogInfo (lit "Successfully processed query. Found "
                             ++ str_of_int (len hits)
                             ++ lit " relevant sources.")] |})
           /\ Forall (fun ev => is_search ev = false
                                /\ is_generation ev = false) logged).
Proof.
  unfold process_query.
  destruct (match query with [] => true | _ => false end
            || (len (strip query) <? 3)) eqn:Hshort.
  { left. reflexivity. }
  right. run_effects.
  destruct (faults w) as [|[e|] rest] eqn:Hf.
  2:{ left. exists e. run_effects. rewrite <- !app_assoc. reflexivity. }
  all: right; run_effects;
    rewrite filter_matches_none, format_results_answer;
    fold (hits_for distance rank query n_results w); fold hits;
    destruct hits as [|h hs] eqn:Eh;
    [left; split; [reflexivity|];
     run_effects; rewrite <- !app_assoc; reflexivity|].
  all: right; split; [discriminate|]; run_effects.
  - answer_goes_through.
  - destruct rest as [|[e|] rest'].
    + answer_goes_through.
    + eexists. eexists [_].
      split; [run_effects; rewrite <- !app_assoc; reflexivity|].
      repeat constructor.
    + answer_goes_through.
Qed.

End QueryOutcome.

Lemma world_eta (w : World) :
  w = {| collection := collection w; faults := faults w;
         trace := trace w ++ [] |}.
Proof. destruct w. simpl. now rewrite app_nil_r. Qed.

Lemma calls_app (t1 t2 : list event) :
  search_calls (t1 ++ t2) = (search_calls t1 + search_calls t2)%nat
  /\ generation_calls (t1 ++ t2)
     = (generation_calls t1 + generation_calls t2)%nat.
Proof.
  unfold search_calls, generation_calls.
  now rewrite !filter_app, !length_app.
Qed.

Lemma calls_logged (logged : list event) :
  Forall (fun ev => is_search ev = false /\ is_generation ev = false) logged ->
  search_calls logged = 0%nat /\ generation_calls logged = 0%nat.
Proof.
  unfold search_calls, generation_calls.
  induction 1 as [|ev l [Hs Hg] _ [IH1 IH2]]; simpl; [now split|].
  now rewrite Hs, Hg.
Qed.

(** [process_query] always returns, and the store is as before. *)
Lemma process_query_returns
  (distance : str -> Entry -> Q) (rank : str -> list Entry -> list Entry)
  (llm : str -> str) (query : str) (n_results : Z) (w : World) :
  exists r fs evs,
    process_query distance rank llm query n_results w
    = (Ok r, {| collection := collection w; faults := fs;
                trace := trace w ++ evs |}).
Proof.
  destruct (process_query_outcome distance rank llm query n_results w)
    as [E|[[e E]|[[_ E]|[_ (response & logged & E & _)]]]];
    rewrite E; do 3 eexists;
    [rewrite (world_eta w) at 1|..]; reflexivity.
Qed.

(** X10.  In every world and for every query, [process_query] returns a
    result and never raises; it leaves the store as it was; it makes at
    most one search call and at most one generation call, and never
    generates without having searched. *)
Theorem process_query_effects
  (distance : str -> Entry -> Q) (rank : str -> list Entry -> list Entry)
  (llm : str -> str) (query : str) (n_results : Z) (w : World) :
  exists r fs evs,
    process_query distance rank llm query n_results w
    = (Ok r, {| collection := collection w; faults := fs;
                trace := trace w ++ evs |})
    /\ (search_calls evs <= 1)%nat
    /\ (generation_calls evs <= search_calls evs)%nat.
Proof.
  destruct (process_query_outcome distance rank llm query n_results w)
    as [E|[[e E]|[[_ E]|[_ (response & logged & E & Hlogged)]]]];
    rewrite E.
  - do 3 eexists. split; [rewrite (world_eta w) at 1; reflexivity|].
    unfold search_calls, generation_calls. simpl. lia.
  - do 3 eexists. split; [reflexivity|].
    unfold search_calls, generation_calls. simpl. lia.
  - do 3 eexists. split; [reflexivity|].
    unfold search_calls, generation_calls. simpl. lia.
  - do 3 eexists. split; [reflexivity|].
    destruct (calls_logged logged Hlogged) as [Hs Hg].
    destruct (calls_app
                [LogInfo (lit "Searching for relevant chunks for query: "
                          ++ query);
                 CollectionQuery query n_results None;
                 LogInfo (lit "Generating response using Gemini LLM");
                 GenerateContent
                   (prompt_for query
                      (hits_for distance rank query n_results w))]
                (logged ++
                 [LogInfo (lit "Successfully processed query. Found "
                           ++ str_of_int
                                (len (hits_for distance rank query
                                        n_results w))
                           ++ lit " relevant sources.")]))
      as [Hs1 Hg1].
    rewrite Hs1, Hg1.
    destruct (calls_app logged
                [LogInfo (lit "Successfully processed query. Found "
                           ++ str_of_int
                                (len (hits_for distance rank query
                                        n_results w))
                           ++ lit " relevant sources.")])
      as [Hs2 Hg2].
    rewrite Hs2, Hg2, Hs, Hg.
    unfold search_calls, generation_calls. simpl. lia.
Qed.

(** X11.  When [process_query] reports success, the answer echoes the
    query, its sources are the formatted hits of the one search made,
    there is at least one of them and no more than [n_results], and
    [total_sources] is their number. *)
Theorem process_query_success
  (distance : str -> Entry -> Q) (rank : str -> list Entry -> list Entry)
  (llm : str -> str) (query : str) (n_results : Z) (w : World)
  (r : QueryResponse) :
  fst (process_query distance rank llm query n_results w) = Ok r ->
  success r = true ->
  exists response sources,
    r = QuerySuccess query response sources (len sources)
    /\ sources
       = map source_of (hits_for distance rank query n_results w)
    /\ 1 <= len sources <= Z.max 0 n_results
    /\ 3 <= len (strip query).
Proof.
  intros Hr Hs.
  destruct (process_query_outcome distance rank llm query n_results w)
    as [E|[[e E]|[[_ E]|[Hne (response & logged & E & _)]]]];
    rewrite E in Hr; simpl in Hr; injection Hr as <-; try discriminate.
  exists response, (map source_of (hits_for distance rank query n_results w)).
  assert (Elen : len (map source_of (hits_for distance rank query n_results w))
                 = len (hits_for distance rank query n_results w))
    by (unfold len; now rewrite length_map).
  rewrite Elen. split; [reflexivity|]. split; [reflexivity|].
  split.
  - split.
    + destruct (hits_for distance rank query n_results w);
        [congruence|]. unfold len. simpl. lia.
    + unfold hits_for, len. rewrite length_map.
      pose proof (firstn_le_length (Z.to_nat n_results)
                    (rank query (collection w))). lia.
  - (* a success is not the outcome of a query that is too short *)
    destruct (Z.ltb_spec (len (strip query)) 3) as [Hlt|]; [|assumption].
    exfalso.
    assert (Hshort : match query with [] => true | _ => false end
                     || (len (strip query) <? 3) = true)
      by (apply too_short_test; now right).
    unfold process_query, try_except in E. rewrite Hshort in E.
    discriminate.
Qed.

Lemma process_query_success_witness :
  exists response sources,
    QuerySuccess (lit "what is rust") (lit "A language.")
      [source_of (hit_of sample_distance (lit "what is rust")
                    (sample_entry (lit "doc") 0))] 1
    = QuerySuccess (lit "what is rust") response sources (len sources)
    /\ sources
       = map source_of (hits_for sample_distance sample_rank
                          (lit "what is rust") 5 (sample_world []))
    /\ 1 <= len sources <= Z.max 0 5
    /\ 3 <= len (strip (lit "what is rust")).
Proof.
  apply (process_query_success sample_distance sample_rank sample_llm
           (lit "what is rust") 5 (sample_world [])).
  - vm_compute. reflexivity.
  - reflexivity.
Defined.

(** X12.  The preview of a source is the text of the hit when that has
    at most 200 characters, and its first 200 characters followed by
    ["..."] otherwise; it never has more than 203 characters. *)
Theorem text_preview_bounded (chunk : Hit) :
  len (text_preview (source_of chunk)) <= 203
  /\ (len (hit_text chunk) <= 200 ->
      text_preview (source_of chunk) = hit_text chunk)
  /\ (200 < len (hit_text chunk) ->
      text_preview (source_of chunk)
      = firstn 200 (hit_text chunk) ++ lit "...").
Proof.
  unfold source_of. cbn [text_preview].
  destruct (Z.gtb_spec (len (hit_text chunk)) 200) as [Hgt|Hle].
  - split; [|split; [lia|]].
    + rewrite len_app, len_slice by lia.
      change (len (lit "...")) with 3. lia.
    + intros _. f_equal. unfold slice.
      rewrite !clamp_index_nonneg by lia.
      rewrite Z.min_l, Z.min_l by lia. reflexivity.
  - split; [lia|]. split; [reflexivity|lia].
Qed.

(** X13.  In every world the [/query] endpoint answers without raising,
    with status 200 or 400 and never 500: 200 carries a successful
    result for a query that [validate_query] accepts, and every refusal,
    a failed search included, is a 400.  The store is left as it was. *)
Theorem query_endpoint_status
  (distance : str -> Entry -> Q) (rank : str -> list Entry -> list Entry)
  (llm lower : str -> str) (query : str) (n_results : Z) (w : World) :
  exists resp w',
    query_documents distance rank llm lower query n_results w = (Ok resp, w')
    /\ collection w' = collection w
    /\ match resp with
       | Http200 body =>
           success body = true /\ valid (validate_query lower query) = true
       | HttpError status_code _ => status_code = 400
       end.
Proof.
  unfold query_documents.
  destruct (validate_query lower query) as [error|n] eqn:Ev.
  - do 2 eexists. run_effects. repeat split.
  - destruct (process_query_returns distance rank llm query n_results w)
      as (r & fs & evs & E).
    run_effects. rewrite E.
    destruct r as [error|q response sources total];
      do 2 eexists; repeat split.
Qed.

(* ------------------------------------------------------------------ *)
(** ** Further properties of [delete_document_chunks] *)

Lemma in_firstn {A} (n : nat) (l : list A) (x : A) :
  In x (firstn n l) -> In x l.
Proof.
  intros H. rewrite <- (firstn_skipn n l). apply in_or_app. now left.
Qed.

Lemma same_id_same_entry (col : list Entry) (a b : Entry) :
  NoDup (map entry_id col) -> In a col -> In b col ->
  entry_id a = entry_id b -> a = b.
Proof.
  induction col as [|e col IH]; intros Hnd Ha Hb E; [destruct Ha|].
  cbn [map] in Hnd. apply NoDup_cons_iff in Hnd. destruct Hnd as [Hfresh Hnd].
  destruct Ha as [<-|Ha], Hb as [<-|Hb].
  - reflexivity.
  - exfalso. apply Hfresh. rewrite E. now apply in_map.
  - exfalso. apply Hfresh. rewrite <- E. now apply in_map.
  - now apply IH.
Qed.

Section DeleteOutcome.

Variable distance : str -> Entry -> Q.
Variable rank : str -> list Entry -> list Entry.
Variable doc : str.
Variable w : World.

(** Every way [delete_document_chunks] can end: it never raises, and the
    store is either what it was or what it was without the identifiers
    the query returned. *)
Lemma delete_document_chunks_outcome :
  exists w',
    delete_document_chunks distance rank doc w = (Ok tt, w')
    /\ (((exists e, faults w = Some e :: tl (faults w))
         \/ (exists e, tl (faults w) = Some e :: tl (tl (faults w))))
        /\ collection w' = collection w
        \/ collection w'
           = filter (fun e => negb (str_in (entry_id e)
                                      (map entry_id
                                         (found_for_delete rank doc w))))
                    (collection w)).
Proof.
  run_effects.
  destruct (faults w) as [|[e|] rest] eqn:Hf.
  - eexists. split; [run_effects; cbn [ids]; rewrite index_head;
                     run_effects; reflexivity|].
    right. reflexivity.
  - eexists. split; [run_effects; reflexivity|].
    left. split; [left; now exists e|reflexivity].
  - destruct rest as [|[e|] rest'].
    + eexists. split; [run_effects; cbn [ids]; rewrite index_head;
                       run_effects; reflexivity|].
      right. reflexivity.
    + eexists. split; [run_effects; cbn [ids]; rewrite index_head;
                       run_effects; reflexivity|].
      left. split; [right; now exists e|reflexivity].
    + eexists. split; [run_effects; cbn [ids]; rewrite index_head;
                       run_effects; reflexivity|].
      right. reflexivity.
Qed.

End DeleteOutcome.

(** X14.  When the query call or the delete call of
    [delete_document_chunks] fails, the function still returns normally,
    the store is left exactly as it was, and the last thing done is an
    error log: the caller is not told. *)
Theorem delete_failure_is_silent
  (distance : str -> Entry -> Q) (rank : str -> list Entry -> list Entry)
  (doc : str) (w : World) (e : exn) (rest : list (option exn)) :
  faults w = Some e :: rest \/ faults w = None :: Some e :: rest ->
  exists w',
    delete_document_chunks distance rank doc w = (Ok tt, w')
    /\ collection w' = collection w
    /\ exists msg, last (trace w') (LogInfo []) = LogError msg.
Proof.
  intros [Hf|Hf]; run_effects; rewrite Hf; run_effects.
  - eexists. split; [reflexivity|]. split; [reflexivity|].
    cbn [trace]. eexists. apply last_last.
  - cbn [ids]. rewrite index_head. run_effects.
    eexists. split; [reflexivity|]. split; [reflexivity|].
    cbn [trace]. eexists. apply last_last.
Qed.

Lemma delete_failure_is_silent_witness :
  exists w',
    delete_document_chunks sample_distance sample_rank (lit "doc")
      (sample_world [None; Some sample_error]) = (Ok tt, w')
    /\ collection w' = collection (sample_world [None; Some sample_error])
    /\ exists msg, last (trace w') (LogInfo []) = LogError msg.
Proof.
  apply (delete_failure_is_silent sample_distance sample_rank (lit "doc")
           (sample_world [None; Some sample_error]) sample_error []).
  right. reflexivity.
Defined.

(** X15.  [delete_document_chunks] never removes a chunk of another
    document: in a store with distinct identifiers, whose query answers
    with matching entries only, an entry whose [document_id] differs is
    still there afterwards, whatever calls fail. *)
Theorem delete_spares_other_documents
  (distance : str -> Entry -> Q) (rank : str -> list Entry -> list Entry)
  (doc : str) (w : World) (e : Entry) :
  NoDup (map entry_id (collection w)) ->
  incl (rank [] (filter (matches (Some doc)) (collection w)))
       (filter (matches (Some doc)) (collection w)) ->
  In e (collection w) ->
  md_document_id (entry_metadata e) <> doc ->
  In e (collection (snd (delete_document_chunks distance rank doc w))).
Proof.
  intros Hnd Hrank He Hdoc.
  destruct (delete_document_chunks_outcome distance rank doc w)
    as (w' & Ew & Hcol).
  rewrite Ew. cbn [snd]. destruct Hcol as [[_ ->]| ->]; [assumption|].
  apply filter_In. split; [assumption|].
  apply negb_true_iff.
  destruct (str_in (entry_id e) (map entry_id (found_for_delete rank doc w)))
    eqn:Es; [|reflexivity].
  exfalso. apply str_in_In, in_map_iff in Es. destruct Es as [e' [Eid He']].
  unfold found_for_delete in He'.
  apply in_firstn, Hrank, filter_In in He'. destruct He' as [Hcol Hm].
  assert (e' = e) by now apply (same_id_same_entry (collection w)).
  subst e'. simpl in Hm. now apply str_eqb_eq in Hm.
Qed.

Lemma delete_spares_other_documents_witness :
  In (sample_entry (lit "other") 0)
     (collection
        (snd (delete_document_chunks sample_distance sample_rank (lit "doc")
                {| collection := [sample_entry (lit "doc") 0;
                                  sample_entry (lit "other") 0;
                                  sample_entry (lit "doc") 1];
                   faults := []; trace := [] |}))).
Proof.
  apply delete_spares_other_documents.
  - vm_compute. repeat constructor; simpl; intuition discriminate.
  - intros x Hx. exact Hx.
  - simpl. tauto.
  - vm_compute. discriminate.
Defined.

(** X16.  When no call fails, the store has distinct identifiers and at
    most 1000 chunks of the document, and the query answers with all the
    matching entries in some order, [delete_document_chunks] removes
    exactly the chunks of that document: what remains is the store
    without them, in the same order. *)
Theorem delete_removes_exactly_the_document
  (distance : str -> Entry -> Q) (rank : str -> list Entry -> list Entry)
  (doc : str) (w : World) :
  faults w = [] ->
  NoDup (map entry_id (collection w)) ->
  Permutation (rank [] (filter (matches (Some doc)) (collection w)))
              (filter (matches (Some doc)) (collection w)) ->
  (length (filter (matches (Some doc)) (collection w)) <= 1000)%nat ->
  collection (snd (delete_document_chunks distance rank doc w))
  = filter (fun e => negb (matches (Some doc) e)) (collection w).
Proof.
  intros Hf Hnd Hperm Hfew.
  rewrite delete_document_chunks_run by assumption. cbn [snd collection].
  assert (Hall : found_for_delete rank doc w
                 = rank [] (filter (matches (Some doc)) (collection w))).
  { unfold found_for_delete. apply firstn_all2.
    rewrite (Permutation_length Hperm).
    change (Z.to_nat 1000) with 1000%nat. lia. }
  rewrite Hall. apply filter_ext_in. intros e He. f_equal.
  destruct (matches (Some doc) e) eqn:Hm.
  - apply str_in_In, in_map.
    apply (Permutation_in _ (Permutation_sym Hperm)).
    apply filter_In. now split.
  - destruct (str_in (entry_id e) _) eqn:Es; [|reflexivity].
    exfalso. apply str_in_In, in_map_iff in Es.
    destruct Es as [e' [Eid He']].
    apply (Permutation_in _ Hperm), filter_In in He'.
    destruct He' as [Hcol Hm'].
    assert (e' = e) by now apply (same_id_same_entry (collection w)).
    subst e'. congruence.
Qed.

Lemma delete_removes_exactly_the_document_witness :
  collection
    (snd (delete_document_chunks sample_distance sample_rank (lit "doc")
            {| collection := [sample_entry (lit "doc") 0;
                              sample_entry (lit "other") 0;
                              sample_entry (lit "doc") 1];
               faults := []; trace := [] |}))
  = filter (fun e => negb (matches (Some (lit "doc")) e))
      [sample_entry (lit "doc") 0; sample_entry (lit "other") 0;
       sample_entry (lit "doc") 1].
Proof.
  apply (delete_removes_exactly_the_document sample_distance sample_rank
           (lit "doc")
           {| collection := [sample_entry (lit "doc") 0;
                             sample_entry (lit "other") 0;
                             sample_entry (lit "doc") 1];
              faults := []; trace := [] |}).
  - reflexivity.
  - vm_compute. repeat constructor; simpl; intuition discriminate.
  - apply Permutation_refl.
  - vm_compute. lia.
Defined.

(* ------------------------------------------------------------------ *)
(** ** Properties of text extraction and [process_document] *)

Lemma pdf_loop_page_limit (max_pages : Z) (pages : list (result str))
  (s : nat) (text : str) :
  pdf_loop max_pages
    (combine (map Z.of_nat (seq s (length pages))) pages) text
  = pdf_loop max_pages
      (combine
         (map Z.of_nat
            (seq s (length (firstn (Z.to_nat max_pages - s) pages))))
         (firstn (Z.to_nat max_pages - s) pages)) text.
Proof.
  revert s text. induction pages as [|p pages IH]; intros s text.
  - now rewrite firstn_nil.
  - cbn [length seq map combine pdf_loop].
    destruct (Z.geb_spec (Z.of_nat s) max_pages) as [Hge|Hlt].
    + replace (Z.to_nat max_pages - s)%nat with 0%nat by lia. reflexivity.
    + replace (Z.to_nat max_pages - s)%nat
        with (S (Z.to_nat max_pages - S s))%nat by lia.
      cbn [firstn length seq map combine pdf_loop].
      destruct (Z.geb_spec (Z.of_nat s) max_pages); [lia|].
      destruct p as [page_text|e]; cbn [bind]; [|reflexivity].
      destruct page_text; apply IH.
Qed.

(** X17.  [_extract_pdf_text] reads the first [MAX_PAGES_PER_DOCUMENT]
    pages only: a file gives the same outcome as the file cut down to
    those pages, so a later page changes nothing, not even when its
    extraction would raise. *)
Theorem pdf_pages_beyond_limit_ignored
  (max_pages : Z) (fs fs' : FileSystem) (file_path : str)
  (pages : list (result str)) :
  pdf_pages fs file_path = Ok pages ->
  pdf_pages fs' file_path = Ok (firstn (Z.to_nat max_pages) pages) ->
  _extract_pdf_text max_pages fs file_path
  = _extract_pdf_text max_pages fs' file_path.
Proof.
  intros H H'. unfold _extract_pdf_text. rewrite H, H'. cbn [bind].
  unfold enumerate.
  rewrite (pdf_loop_page_limit max_pages pages 0 []).
  now rewrite Nat.sub_0_r.
Qed.

Lemma pdf_pages_beyond_limit_ignored_witness :
  _extract_pdf_text 3 sample_fs (lit "report.pdf")
  = _extract_pdf_text 3
      {| pdf_pages := fun _ =>
           Ok [Ok (lit "First page of the report."); Ok [];
               Ok (lit "Third page.")];
         docx_paragraphs := docx_paragraphs sample_fs;
         txt_content := txt_content sample_fs;
         getsize := getsize sample_fs |} (lit "report.pdf").
Proof.
  apply (pdf_pages_beyond_limit_ignored 3 sample_fs _ (lit "report.pdf")
           [Ok (lit "First page of the report."); Ok [];
            Ok (lit "Third page."); Raise (ServiceError (lit "damaged page"))]);
    reflexivity.
Defined.

Example pdf_extraction_sample :
  _extract_pdf_text 3 sample_fs (lit "report.pdf")
  = Ok (lit "--- Page 1 ---" ++ nl ++ lit "First page of the report."
        ++ nl ++ nl ++ lit "--- Page 3 ---" ++ nl ++ lit "Third page.")
  /\ _extract_pdf_text 4 sample_fs (lit "report.pdf")
     = Raise (ServiceError (lit "damaged page")).
Proof. split; vm_compute; reflexivity. Qed.

(** Trimming is idempotent. *)
Lemma lstrip_fixed (s : str) : lstrip (lstrip s) = lstrip s.
Proof.
  induction s as [|c s IH]; [reflexivity|]. simpl.
  destruct (is_space c) eqn:Hc; [exact IH|]. simpl. now rewrite Hc.
Qed.

Lemma lstrip_snoc (s : str) (c : char) :
  is_space c = false -> lstrip (s ++ [c]) = lstrip s ++ [c].
Proof.
  intros Hc. induction s as [|x s IH]; simpl.
  - now rewrite Hc.
  - destruct (is_space x); [exact IH|reflexivity].
Qed.

Lemma lstrip_rstrip (s : str) :
  lstrip s = s -> lstrip (rstrip s) = rstrip s.
Proof.
  intros H. destruct s as [|c s]; [reflexivity|].
  assert (Hc : is_space c = false).
  { simpl in H. destruct (is_space c) eqn:E; [|reflexivity].
    exfalso. assert (Hlen : (length (lstrip s) <= length s)%nat).
    { clear. induction s as [|x s IH]; simpl; [lia|].
      destruct (is_space x); simpl; lia. }
    rewrite H in Hlen. simpl in Hlen. lia. }
  unfold rstrip. cbn [rev]. rewrite lstrip_snoc by assumption.
  rewrite rev_app_distr. simpl. now rewrite Hc.
Qed.

Lemma strip_fixed (s : str) : strip (strip s) = strip s.
Proof.
  unfold strip.
  rewrite (lstrip_rstrip (lstrip s)) by apply lstrip_fixed.
  unfold rstrip. now rewrite rev_involutive, lstrip_fixed.
Qed.

(** The three extractors end in [strip]. *)
Lemma extractors_trim
  (max_pages : Z) (fs : FileSystem) (file_path t : str) :
  _extract_pdf_text max_pages fs file_path = Ok t
  \/ _extract_docx_text fs file_path = Ok t
  \/ _extract_txt_text fs file_path = Ok t ->
  strip t = t.
Proof.
  unfold _extract_pdf_text, _extract_docx_text, _extract_txt_text.
  intros [H|[H|H]].
  - destruct (pdf_pages fs file_path); [|discriminate]. cbn [bind] in H.
    destruct (pdf_loop max_pages (enumerate a) []); [|discriminate].
    cbn [bind] in H. injection H as <-. apply strip_fixed.
  - destruct (docx_paragraphs fs file_path); [|discriminate].
    cbn [bind] in H. injection H as <-. apply strip_fixed.
  - destruct (txt_content fs file_path); [|discriminate].
    cbn [bind] in H. injection H as <-. apply strip_fixed.
Qed.

(** X18.  Whatever the three extractors return is trimmed: a returned
    text has no white space at either end, so trimming it again changes
    nothing. *)
Theorem extracted_text_is_trimmed
  (max_pages : Z) (fs : FileSystem) (file_path t : str) :
  _extract_pdf_text max_pages fs file_path = Ok t
  \/ _extract_docx_text fs file_path = Ok t
  \/ _extract_txt_text fs file_path = Ok t ->
  strip t = t.
Proof. apply extractors_trim. Qed.

Lemma extracted_text_is_trimmed_witness :
  strip (lit "a short note of thirty chars.")
  = lit "a short note of thirty chars.".
Proof.
  apply (extracted_text_is_trimmed 3 sample_fs (lit "note.txt")).
  right. right. vm_compute. reflexivity.
Defined.

(** [_count_pages] always answers. *)
Lemma count_pages_total
  (fs : FileSystem) (file_path file_ext : str) :
  exists k,
    _count_pages fs file_path file_ext = Ok k
    /\ 0 <= k
    /\ (file_ext <> lit ".pdf" -> 1 <= k).
Proof.
  unfold _count_pages.
  destruct (str_eqb file_ext (lit ".pdf")) eqn:Epdf.
  - apply str_eqb_eq in Epdf.
    destruct (pdf_pages fs file_path) as [pages|e]; cbn [bind or_else];
      eexists; (split; [reflexivity|]); split;
      try apply len_nonneg; try lia; congruence.
  - destruct (str_eqb file_ext (lit ".docx")).
    + destruct (docx_paragraphs fs file_path); cbn [bind or_else];
        eexists; (split; [reflexivity|]); split; lia.
    + destruct (str_eqb file_ext (lit ".txt")).
      * destruct (txt_content fs file_path); cbn [bind or_else];
          eexists; (split; [reflexivity|]); split; lia.
      * cbn [or_else]. eexists. split; [reflexivity|]. split; lia.
Qed.

(** X19.  [_count_pages] never raises: when a reader fails it answers 1.
    The count is never negative, and for every extension other than
    [.pdf] it is at least 1. *)
Theorem count_pages_never_raises
  (fs : FileSystem) (file_path file_ext : str) :
  exists k,
    _count_pages fs file_path file_ext = Ok k
    /\ 0 <= k
    /\ (file_ext <> lit ".pdf" -> 1 <= k).
Proof. apply count_pages_total. Qed.

(** X20.  A file name that [validate_file] refuses for its extension
    (the size being within the limit) makes [process_document] raise
    ['Unsupported file type: <ext>'], whatever the file system holds:
    the two checks agree and the file is never consulted. *)
Theorem refused_extension_is_unsupported
  (cfg : Config) (max_pages : Z) (fs : FileSystem) (lower : str -> str)
  (new_id file_path fname : str) (file_size : Z) :
  file_size <= 52428800 ->
  validate_file lower fname file_size = false ->
  process_document cfg max_pages fs lower new_id file_path fname
  = Raise (ValueError (lit "Unsupported file type: "
                       ++ lower (snd (splitext fname)))).
Proof.
  intros Hsize Hv. unfold validate_file in Hv. unfold process_document.
  destruct (negb (str_in (lower (snd (splitext fname))) supported_extensions));
    [reflexivity|].
  change (50 * 1024 * 1024) with 52428800 in Hv.
  destruct (Z.gtb_spec file_size 52428800); [lia|discriminate].
Qed.

Lemma refused_extension_is_unsupported_witness :
  process_document default_config 1000 sample_fs ascii_lower
    (lit "id-1") (lit "/tmp/upload") (lit "setup.EXE")
  = Raise (ValueError (lit "Unsupported file type: "
                       ++ ascii_lower (snd (splitext (lit "setup.EXE"))))).
Proof.
  apply (refused_extension_is_unsupported default_config 1000 sample_fs
           ascii_lower (lit "id-1") (lit "/tmp/upload") (lit "setup.EXE") 10);
    [lia|vm_compute; reflexivity].
Defined.

Lemma chunks_carry_document (cfg : Config) (txt doc_id fname : str)
  (chunks : list Chunk) :
  _chunk_text cfg txt doc_id fname = Ok chunks ->
  forall c, In c chunks -> document_id c = doc_id /\ filename c = fname.
Proof.
  intros H c Hc.
  destruct (Z.eq_dec (CHUNK_SIZE cfg) (CHUNK_OVERLAP cfg)) as [E|NE].
  - rewrite _chunk_text_zero_stride in H by assumption. discriminate.
  - rewrite _chunk_text_spec in H by lia. injection H as <-.
    apply chunk_in_output in Hc. destruct Hc as (i & -> & _). now split.
Qed.

(** X21.  What [process_document] returns on success is consistent:
    [chunks_count] is the number of chunks, every chunk carries the
    document id of the metadata (the fresh id) and the file name, the
    recorded extension is a supported one, the text has at least 10
    characters, the page count is not negative and the status is
    ['completed']. *)
Theorem processed_document_is_consistent
  (cfg : Config) (max_pages : Z) (fs : FileSystem) (lower : str -> str)
  (new_id file_path fname : str) (pd : ProcessedDocument) :
  process_document cfg max_pages fs lower new_id file_path fname = Ok pd ->
  dm_chunks_count (pd_metadata pd) = len (pd_chunks pd)
  /\ dm_document_id (pd_metadata pd) = new_id
  /\ (forall c, In c (pd_chunks pd) ->
        document_id c = new_id /\ filename c = fname)
  /\ In (dm_file_extension (pd_metadata pd)) supported_extensions
  /\ 10 <= dm_total_characters (pd_metadata pd)
  /\ 0 <= dm_total_pages (pd_metadata pd)
  /\ dm_processing_status (pd_metadata pd) = lit "completed".
Proof.
  unfold process_document. intros H.
  destruct (str_in (lower (snd (splitext fname))) supported_extensions)
    eqn:Hext; [|discriminate].
  cbn [negb] in H.
  set (ext := lower (snd (splitext fname))) in *.
  set (extract := if str_eqb ext (lit ".pdf") then _ else _) in H.
  destruct extract as [t|e] eqn:Et; [|discriminate].
  cbn [bind] in H.
  assert (Htrim : strip t = t).
  { apply (extractors_trim max_pages fs file_path).
    subst extract.
    destruct (str_eqb ext (lit ".pdf")); [now left|].
    destruct (str_eqb ext (lit ".docx")); [right; now left|].
    destruct (str_eqb ext (lit ".txt")); [right; now right|discriminate]. }
  destruct (match t with [] => true | _ => false end || (len (strip t) <? 10))
    eqn:Hshort; [discriminate|].
  apply orb_false_iff in Hshort. destruct Hshort as [_ Hlen].
  apply Z.ltb_ge in Hlen. rewrite Htrim in Hlen.
  destruct (getsize fs file_path) as [size|]; [|discriminate].
  cbn [bind] in H.
  destruct (count_pages_total fs file_path ext) as (k & Ek & Hk & _).
  rewrite Ek in H. cbn [bind] in H.
  destruct (_chunk_text cfg t new_id fname) as [chunks|] eqn:Ec;
    [|discriminate].
  cbn [bind] in H. injection H as <-.
  cbn [pd_metadata pd_chunks dm_chunks_count dm_document_id
       dm_file_extension dm_total_characters dm_total_pages
       dm_processing_status].
  repeat split; try assumption; try reflexivity.
  - now apply (chunks_carry_document cfg t new_id fname chunks Ec).
  - now apply (chunks_carry_document cfg t new_id fname chunks Ec).
  - now apply str_in_In.
Qed.

Lemma processed_document_is_consistent_witness :
  exists pd,
    process_document default_config 1000 sample_fs ascii_lower
      (lit "id-1") (lit "/tmp/upload") (lit "Note.TXT") = Ok pd
    /\ dm_chunks_count (pd_metadata pd) = len (pd_chunks pd)
    /\ dm_document_id (pd_metadata pd) = lit "id-1"
    /\ (forall c, In c (pd_chunks pd) ->
          document_id c = lit "id-1" /\ filename c = lit "Note.TXT")
    /\ In (dm_file_extension (pd_metadata pd)) supported_extensions
    /\ 10 <= dm_total_characters (pd_metadata pd)
    /\ 0 <= dm_total_pages (pd_metadata pd)
    /\ dm_processing_status (pd_metadata pd) = lit "completed".
Proof.
  eexists. split; [vm_compute; reflexivity|].
  apply (processed_document_is_consistent default_config 1000 sample_fs
           ascii_lower (lit "id-1") (lit "/tmp/upload") (lit "Note.TXT")).
  vm_compute. reflexivity.
Defined.

Lemma len_join_cons (sep w : str) (ws : list str) :
  len (join sep (w :: ws)) <= len w + len sep + len (join sep ws).
Proof.
  destruct ws as [|w' ws].
  - simpl join. pose proof (len_nonneg sep).
    change (len (@nil char)) with 0. lia.
  - change (join sep (w :: w' :: ws)) with (w ++ sep ++ join sep (w' :: ws)).
    rewrite !len_app. lia.
Qed.

(** Joining the words of a text with single spaces never makes it
    longer. *)
Lemma len_join_split_from (s cur : str) :
  len (join (lit " ") (split_from cur s)) <= len cur + len s.
Proof.
  revert cur. induction s as [|c s IH]; intros cur.
  - cbn [split_from]. change (len (@nil char)) with 0.
    destruct cur; cbn [join]; apply Z.eq_le_incl; symmetry; apply Z.add_0_r.
  - cbn [split_from].
    assert (Hs : len (c :: s) = 1 + len s)
      by (unfold len; cbn [length]; lia).
    destruct (is_space c).
    + destruct cur as [|x cur].
      * specialize (IH []). change (len (@nil char)) with 0 in *. lia.
      * pose proof (len_join_cons (lit " ") (x :: cur) (split_from [] s)).
        specialize (IH []).
        change (len (@nil char)) with 0 in IH.
        change (len (lit " ")) with 1 in *. lia.
    + specialize (IH (cur ++ [c])). rewrite len_app in IH.
      change (len [c]) with 1 in IH. lia.
Qed.

Lemma no_chunks_for_text_below_50 (cfg : Config) (t doc_id fname : str) :
  len t < 50 ->
  25 <= CHUNK_SIZE cfg ->
  25 <= CHUNK_SIZE cfg - CHUNK_OVERLAP cfg ->
  _chunk_text cfg t doc_id fname = Ok [].
Proof.
  intros Ht HW HS. rewrite _chunk_text_spec by lia.
  pose proof (len_join_split_from t []) as Hj. fold (split t) in Hj.
  change (len (@nil char)) with 0 in Hj.
  pose proof (len_nonneg (split t)) as Hn.
  destruct (Z.eq_dec (len (split t)) 0) as [Hz|Hnz].
  - rewrite Hz, range_list_empty. reflexivity.
  - pose proof (len_join_words 32%N (split t) (split_words t)) as Hw.
    change [32%N] with (lit " ") in Hw.
    assert (Hne : split t <> [])
      by (intros E; rewrite E in Hnz; now apply Hnz).
    specialize (Hw Hne).
    rewrite range_list_single by lia. cbn [filter].
    assert (Hk : keeps cfg (split t) 0 = false).
    { unfold keeps. rewrite strip_chunk_text.
      unfold chunk_text, chunk_words. rewrite slice_whole by lia.
      apply negb_false_iff, Z.ltb_lt. lia. }
    now rewrite Hk.
Qed.

(** X22.  Small [.txt] files.  A file whose trimmed content has fewer
    than 10 characters is rejected with
    ['Document contains insufficient text content'].  A file whose
    trimmed content has from 10 to 49 characters is accepted, but it
    yields no chunk at all: the document is recorded as completed with
    [chunks_count = 0], for every configuration with a window and a
    stride of at least 25 words. *)
Theorem small_text_file
  (cfg : Config) (max_pages : Z) (fs : FileSystem) (lower : str -> str)
  (new_id file_path fname raw : str) (size : Z) :
  lower (snd (splitext fname)) = lit ".txt" ->
  txt_content fs file_path = Ok raw ->
  getsize fs file_path = Ok size ->
  (len (strip raw) < 10 ->
   process_document cfg max_pages fs lower new_id file_path fname
   = Raise (ValueError (lit "Document contains insufficient text content")))
  /\ (10 <= len (strip raw) < 50 ->
      25 <= CHUNK_SIZE cfg ->
      25 <= CHUNK_SIZE cfg - CHUNK_OVERLAP cfg ->
      exists pd,
        process_document cfg max_pages fs lower new_id file_path fname = Ok pd
        /\ pd_chunks pd = []
        /\ dm_chunks_count (pd_metadata pd) = 0
        /\ dm_total_characters (pd_metadata pd) = len (strip raw)
        /\ dm_processing_status (pd_metadata pd) = lit "completed").
Proof.
  intros Hext Hraw Hsize.
  assert (Hrun : forall (k : result ProcessedDocument),
            process_document cfg max_pages fs lower new_id file_path fname
            = (if match strip raw with [] => true | _ => false end
                  || (len (strip (strip raw)) <? 10)
               then Raise (ValueError
                      (lit "Document contains insufficient text content"))
               else
                 file_size <- Ok size ;;
                 total_pages <- _count_pages fs file_path (lit ".txt") ;;
                 chunks <- _chunk_text cfg (strip raw) new_id fname ;;
                 Ok {| pd_metadata :=
                         {| dm_document_id := new_id;
                            dm_filename := fname;
                            dm_file_path := file_path;
                            dm_file_size := file_size;
                            dm_file_extension := lit ".txt";
                            dm_total_characters := len (strip raw);
                            dm_total_pages := total_pages;
                            dm_processing_status := lit "completed";
                            dm_chunks_count := len chunks |};
                       pd_chunks := chunks |})).
  { intros _. unfold process_document, _extract_txt_text.
    rewrite Hext, Hraw, Hsize. reflexivity. }
  rewrite (Hrun (Raise (ValueError []))). clear Hrun.
  rewrite strip_fixed. split.
  - intros Hlt. apply Z.ltb_lt in Hlt. rewrite Hlt, orb_true_r. reflexivity.
  - intros [Hlo Hhi] HW HS.
    destruct (strip raw) as [|c t] eqn:Et;
      [vm_compute in Hlo; now elim Hlo|].
    cbn [orb]. destruct (Z.ltb_spec (len (c :: t)) 10); [lia|].
    cbn [bind].
    destruct (count_pages_total fs file_path (lit ".txt"))
      as (k & -> & _).
    cbn [bind].
    rewrite (no_chunks_for_text_below_50 cfg (c :: t) new_id fname)
      by assumption.
    cbn [bind]. eexists. split; [reflexivity|]. repeat split.
Qed.

Lemma small_text_file_witness :
  exists pd,
    process_document default_config 1000 sample_fs ascii_lower
      (lit "id-1") (lit "/tmp/upload") (lit "Note.TXT") = Ok pd
    /\ pd_chunks pd = []
    /\ dm_chunks_count (pd_metadata pd) = 0
    /\ dm_total_characters (pd_metadata pd)
       = len (strip (lit "  a short note of thirty chars.  "))
    /\ dm_processing_status (pd_metadata pd) = lit "completed".
Proof.
  apply (proj2 (small_text_file default_config 1000 sample_fs ascii_lower
                  (lit "id-1") (lit "/tmp/upload") (lit "Note.TXT")
                  (lit "  a short note of thirty chars.  ") 2048
                  eq_refl eq_refl eq_refl)).
  - vm_compute. split; congruence.
  - simpl. lia.
  - simpl. lia.
Defined.

Lemma rfind_from_absent (c : char) (p : str) (pos last : Z) :
  Forall (fun x => x <> c) p -> rfind_from c p pos last = last.
Proof.
  intros H. revert pos. induction H as [|x p Hx _ IH]; intros pos; simpl.
  - reflexivity.
  - destruct (N.eqb_spec x c); [contradiction|]. apply IH.
Qed.

Lemma rfind_from_lower_bound (c : char) (p : str) (pos last : Z) :
  -1 <= last -> 0 <= pos -> -1 <= rfind_from c p pos last.
Proof.
  revert pos last. induction p as [|x p IH]; intros pos last Hl Hp; simpl.
  - assumption.
  - apply IH; [destruct (x =? c)%N|]; lia.
Qed.

(** X23.  A file name without a dot has no extension and is refused by
    [validate_file] whatever its size (the lower-casing of the empty
    string being empty). *)
Theorem name_without_dot_is_refused
  (lower : str -> str) (fname : str) (file_size : Z) :
  lower [] = [] ->
  Forall (fun c => c <> 46%N) fname ->
  snd (splitext fname) = [] /\ validate_file lower fname file_size = false.
Proof.
  intros Hlower Hdot.
  assert (Hext : snd (splitext fname) = []).
  { unfold splitext, rfind.
    rewrite (rfind_from_absent 46%N fname 0 (-1) Hdot).
    pose proof (rfind_from_lower_bound 47%N fname 0 (-1)
                  ltac:(lia) ltac:(lia)) as Hsep.
    destruct (Z.ltb_spec (rfind_from 47%N fname 0 (-1)) (-1)); [lia|].
    reflexivity. }
  split; [exact Hext|].
  unfold validate_file. rewrite Hext, Hlower. reflexivity.
Qed.

Lemma name_without_dot_is_refused_witness :
  snd (splitext (lit "README")) = []
  /\ validate_file ascii_lower (lit "README") 120 = false.
Proof.
  apply name_without_dot_is_refused.
  - reflexivity.
  - repeat constructor; discriminate.
Defined.
